(** * Week planner: a shallow embedding of activity.py, states.py and
    components.py, and the properties of its scheduler, navigation stack
    and widgets. *)

From Stdlib Require Import String Ascii List ZArith Lia Bool.
Import ListNotations.

Open Scope Z_scope.

(** ** Python runtime pieces used by the program *)
Module Py.

(** Exceptions the embedded code can raise. *)
Inductive exc : Type :=
| ValueError
| IndexError
| ZeroDivisionError
| FileNotFoundError.

(** Result of a Python call: a returned value or a raised exception. *)
Inductive outcome (A : Type) : Type :=
| Ok (a : A)
| Raise (e : exc).
Arguments Ok {A} a.
Arguments Raise {A} e.

Definition bind {A B} (m : outcome A) (k : A -> outcome B) : outcome B :=
  match m with
  | Ok a => k a
  | Raise e => Raise e
  end.

(** Characters are code points 0..255; [str.isspace] on that range:
    \t \n \v \f \r, \x1c..\x1f, space, \x85 and \xa0. *)
Definition isspace (c : ascii) : bool :=
  let n := nat_of_ascii c in
  (((9 <=? n) && (n <=? 13)) || ((28 <=? n) && (n <=? 32))
  || (n =? 133) || (n =? 160))%nat.

Definition nl : ascii := ascii_of_nat 10%nat.
Definition cr : ascii := ascii_of_nat 13%nat.

Fixpoint lstrip (s : string) : string :=
  match s with
  | EmptyString => EmptyString
  | String c r => if isspace c then lstrip r else s
  end.

Fixpoint rstrip (s : string) : string :=
  match s with
  | EmptyString => EmptyString
  | String c r =>
      let r' := rstrip r in
      if String.eqb r' EmptyString && isspace c then EmptyString
      else String c r'
  end.

(** [s.strip()] *)
Definition strip (s : string) : string := rstrip (lstrip s).

(** [s.split(sep)] for a one-character separator. *)
Fixpoint split (sep : ascii) (s : string) : list string :=
  match s with
  | EmptyString => [EmptyString]
  | String c r =>
      let ps := split sep r in
      if Ascii.eqb c sep then EmptyString :: ps
      else match ps with
           | p :: ps' => String c p :: ps'
           | [] => [String c EmptyString]
           end
  end.

(** [sep.join(l)] for a one-character separator. *)
Fixpoint join (sep : ascii) (l : list string) : string :=
  match l with
  | [] => EmptyString
  | x :: rest =>
      match rest with
      | [] => x
      | _ => (x ++ String sep (join sep rest))%string
      end
  end.

(** Iterating a file opened in text mode: universal newlines turn
    \r\n and \r into \n, and each line keeps its terminator. *)
Fixpoint lines (s : string) : list string :=
  match s with
  | EmptyString => []
  | String c r =>
      if Ascii.eqb c nl then String nl EmptyString :: lines r
      else if Ascii.eqb c cr then
        match r with
        | String c' r' =>
            if Ascii.eqb c' nl then String nl EmptyString :: lines r'
            else String nl EmptyString :: lines r
        | EmptyString => [String nl EmptyString]
        end
      else match lines r with
           | [] => [String c EmptyString]
           | l :: ls => String c l :: ls
           end
  end.

Definition digit_value (c : ascii) : option Z :=
  let n := nat_of_ascii c in
  if ((48 <=? n) && (n <=? 57))%nat then Some (Z.of_nat (n - 48)) else None.

(** Decimal digits with single underscores between digits, as [int]
    accepts them; [prev] says the last character read was a digit. *)
Fixpoint parse_digits (acc : Z) (prev : bool) (s : string) : option Z :=
  match s with
  | EmptyString => if prev then Some acc else None
  | String c r =>
      match digit_value c with
      | Some d => parse_digits (acc * 10 + d) true r
      | None =>
          if Ascii.eqb c "_"%char && prev then parse_digits acc false r
          else None
      end
  end.

(** [int(s)] for a base-10 string. *)
Definition int (s : string) : outcome Z :=
  let t := strip s in
  let r := match t with
           | String c u =>
               if Ascii.eqb c "-"%char then option_map Z.opp (parse_digits 0 false u)
               else if Ascii.eqb c "+"%char then parse_digits 0 false u
               else parse_digits 0 false t
           | EmptyString => None
           end in
  match r with
  | Some z => Ok z
  | None => Raise ValueError
  end.

Definition digit_char (d : Z) : ascii := ascii_of_nat (48 + Z.to_nat d)%nat.

(** Decimal digits of [n >= 0], most significant first, before [acc]. *)
Fixpoint pos_digits (fuel : nat) (n : Z) (acc : string) : string :=
  match fuel with
  | O => acc
  | S f =>
      let acc' := String (digit_char (n mod 10)) acc in
      if n <? 10 then acc' else pos_digits f (n / 10) acc'
  end.

(** [str(z)] for an int. *)
Definition str (z : Z) : string :=
  if z <? 0 then String "-"%char (pos_digits (S (Z.to_nat (- z))) (- z) EmptyString)
  else pos_digits (S (Z.to_nat z)) z EmptyString.

(** [xs[-1]] and [xs[:-1]] on a list. *)
Definition last_item (l : list string) : outcome string :=
  match rev l with
  | x :: _ => Ok x
  | [] => Raise IndexError
  end.

End Py.

Import Py.

(** ** activity.py *)
Module ActivityFile.

Record Activity : Type := mkActivity {
  choice : string;
  priority : Z
}.

(** One line of [read_activities]:
    [choice, priority = ",".join(line.strip().split(',')[:-1]),
                        line.strip().split(',')[-1]]
    followed by [Activity(choice, int(priority))]. *)
Definition parse_line (line : string) : outcome Activity :=
  let parts := split ","%char (strip line) in
  let choice := join ","%char (removelast parts) in
  bind (last_item parts) (fun p =>
  bind (int p) (fun prio => Ok (mkActivity choice prio))).

Fixpoint parse_lines (ls : list string) : outcome (list Activity) :=
  match ls with
  | [] => Ok []
  | l :: rest =>
      bind (parse_line l) (fun a =>
      bind (parse_lines rest) (fun acts => Ok (a :: acts)))
  end.

(** The [for line in f] loop of [read_activities] over the file's contents. *)
Definition parse_contents (contents : string) : outcome (list Activity) :=
  parse_lines (lines contents).

(** One [f.write(f"{activity.choice},{activity.priority}\n")]. *)
Definition format_activity (a : Activity) : string :=
  (choice a ++ String ","%char (str (priority a) ++ String nl EmptyString))%string.

(** The [for activity in activities] loop of [write_activities]. *)
Fixpoint format_contents (acts : list Activity) : string :=
  match acts with
  | [] => EmptyString
  | a :: rest => (format_activity a ++ format_contents rest)%string
  end.

(** The files of the working directory, by name ([None]: no such file). *)
Definition file_store := string -> option string.

(** [open(filename, 'w')] then writes: the old contents are dropped. *)
Definition write_file (fs : file_store) (filename contents : string) : file_store :=
  fun f => if String.eqb f filename then Some contents else fs f.

Definition read_activities (fs : file_store) (filename : string)
  : outcome (list Activity) :=
  match fs filename with
  | Some contents => parse_contents contents
  | None => Raise FileNotFoundError
  end.

Definition write_activities (fs : file_store) (filename : string)
  (acts : list Activity) : file_store :=
  write_file fs filename (format_contents acts).

(** The body of a written line, without its newline. *)
Definition line_body (a : Activity) : string :=
  (choice a ++ String ","%char (str (priority a)))%string.

(** Every character of [s] satisfies [f]. *)
Fixpoint forallb_chars (f : ascii -> bool) (s : string) : bool :=
  match s with
  | EmptyString => true
  | String c r => f c && forallb_chars f r
  end.

Definition not_line_break (c : ascii) : bool :=
  negb (Ascii.eqb c nl) && negb (Ascii.eqb c cr).

(** Names the file format carries unchanged: no line break, and no
    whitespace in front (the [strip()] of [read_activities] drops it). *)
Definition name_ok (s : string) : bool :=
  forallb_chars not_line_break s
  && match s with
     | String c _ => negb (isspace c)
     | EmptyString => true
     end.

End ActivityFile.

(** ** The scheduler of states.py: [get_random_activity] and
    [adjust_priorities] *)
Module Scheduler.
Import ActivityFile.

(** [Activity] objects live in a heap; a Python list of activities is a
    list of references into it, so an update through the list is seen
    by every holder of the same objects. *)
Definition loc := nat.
Definition heap := list Activity.

Definition dflt : Activity := mkActivity EmptyString 0.
Definition get (h : heap) (l : loc) : Activity := nth l h dflt.

Fixpoint set (h : heap) (l : loc) (a : Activity) : heap :=
  match h, l with
  | [], _ => []
  | _ :: r, O => a :: r
  | x :: r, S l' => x :: set r l' a
  end.

(** The records [read_activities] builds are fresh objects. *)
Definition alloc (h : heap) (acts : list Activity) : heap * list loc :=
  (h ++ acts, seq (length h) (length acts)).

(** [x in xs] on a list of strings. *)
Definition mem (x : string) (xs : list string) : bool := existsb (String.eqb x) xs.

(** [xs.remove(x)]: drops the first occurrence. *)
Fixpoint remove_first (x : string) (xs : list string) : list string :=
  match xs with
  | [] => []
  | y :: r => if String.eqb x y then r else y :: remove_first x r
  end.

(** [activity = line.split(":")[1].strip()] *)
Definition plan_entry (line : string) : outcome string :=
  match nth_error (split ":"%char line) 1 with
  | Some f => Ok (strip f)
  | None => Raise IndexError
  end.

(** The [for line in f] loop over one plan: [all] are the names not
    found yet, [found] the names found so far (over every plan read). *)
Fixpoint scan_lines (ls : list string) (all found : list string)
  : outcome (list string * list string) :=
  match ls with
  | [] => Ok (all, found)
  | line :: rest =>
      bind (plan_entry line) (fun a =>
        if mem a all then scan_lines rest (remove_first a all) (found ++ [a])
        else scan_lines rest all found)
  end.

(** [if activity.get_activity() not in found_activities:
       activity.priority += 1] *)
Definition bump_one (found : list string) (h : heap) (l : loc) : heap :=
  let a := get h l in
  if negb (mem (choice a) found)
  then set h l (mkActivity (choice a) (priority a + 1))
  else h.

Definition bump (h : heap) (locs : list loc) (found : list string) : heap :=
  fold_left (bump_one found) locs h.

(** A record after [bump] with [found]: one more unless its name is in
    [found]. *)
Definition bumped (found : list string) (a : Activity) : Activity :=
  mkActivity (choice a) (priority a + if mem (choice a) found then 0 else 1).

(** One iteration of [for plan in plans]: read the plan, then bump. *)
Definition adjust_round (contents : string) (h : heap) (locs : list loc)
  (all found : list string) : outcome (heap * list string * list string) :=
  bind (scan_lines (lines contents) all found) (fun '(all', found') =>
    Ok (bump h locs found', all', found')).

(** The loop, with [if not all_activities: break]; the heap is returned
    also when a plan line raises. *)
Fixpoint adjust_loop (plans : list string) (h : heap) (locs : list loc)
  (all found : list string) : heap * outcome unit :=
  match plans with
  | [] => (h, Ok tt)
  | p :: ps =>
      match adjust_round p h locs all found with
      | Raise e => (h, Raise e)
      | Ok (h', all', found') =>
          match all' with
          | [] => (h', Ok tt)
          | _ => adjust_loop ps h' locs all' found'
          end
      end
  end.

(** [plans.sort(reverse=True)] on (file name, contents) pairs. *)
Fixpoint insert_desc (x : string * string) (l : list (string * string))
  : list (string * string) :=
  match l with
  | [] => [x]
  | y :: r => if String.leb (fst y) (fst x) then x :: l else y :: insert_desc x r
  end.

Fixpoint sort_desc (l : list (string * string)) : list (string * string) :=
  match l with
  | [] => []
  | x :: r => insert_desc x (sort_desc r)
  end.

(** [adjust_priorities(activities)]: [plans_dir] is the listing of the
    "plans" directory with each file's contents ([None]: no directory).
    It returns the very list it was given. *)
Definition adjust_priorities (plans_dir : option (list (string * string)))
  (h : heap) (locs : list loc) : heap * outcome (list loc) :=
  match plans_dir with
  | None => (h, Raise FileNotFoundError)
  | Some [] => (h, Ok locs)
  | Some plans =>
      let all := map (fun l => choice (get h l)) locs in
      let '(h', r) := adjust_loop (map snd (sort_desc plans)) h locs all [] in
      (h', bind r (fun _ => Ok locs))
  end.

(** [choices]: each activity's name [priority] times. *)
Definition pool (h : heap) (locs : list loc) : list string :=
  flat_map (fun l => repeat (choice (get h l)) (Z.to_nat (priority (get h l)))) locs.

(** [random.choice(seq)]: [seq[randbelow(len(seq))]], IndexError on an
    empty sequence; [randbelow n] is the generator's draw below [n]. *)
Definition py_choice (randbelow : nat -> nat) (seq : list string) : outcome string :=
  match seq with
  | [] => Raise IndexError
  | _ => match nth_error seq (randbelow (length seq)) with
         | Some x => Ok x
         | None => Raise IndexError
         end
  end.

(** [get_random_activity()] *)
Definition get_random_activity (randbelow : nat -> nat) (fs : file_store)
  (plans_dir : option (list (string * string))) (h : heap) : heap * outcome string :=
  match read_activities fs "activities.txt" with
  | Raise e => (h, Raise e)
  | Ok acts =>
      let '(h1, locs) := alloc h acts in
      let '(h2, r) := adjust_priorities plans_dir h1 locs in
      match r with
      | Raise e => (h2, Raise e)
      | Ok locs' => (h2, py_choice randbelow (pool h2 locs'))
      end
  end.

End Scheduler.

(** [list[i] = x] on a list ([i] in range in every use). *)
Fixpoint list_set {A : Type} (l : list A) (i : nat) (x : A) : list A :=
  match l, i with
  | [], _ => []
  | _ :: r, O => x :: r
  | y :: r, S i' => y :: list_set r i' x
  end.

(** ** The navigation stack of states.py: [State.__init__], [update],
    [advance_state], [regress_state] *)
Module Nav.

(** Screens are named by the order of their construction. [history] is
    the global [state_history]; [next_states] holds each screen's
    [next_state]; [regressed] lists, in order, the screens whose
    [on_regress] has run. *)
Record world : Type := mkWorld {
  history : list nat;
  next_states : list (option nat);
  regressed : list nat
}.

Definition next_of (w : world) (self : nat) : option nat := nth self (next_states w) None.

Definition set_next (w : world) (self : nat) (v : option nat) : world :=
  mkWorld (history w) (list_set (next_states w) self v) (regressed w).

(** [State.__init__]: [self.next_state = None; state_history.append(self)] *)
Definition construct (w : world) : world * nat :=
  let id := length (next_states w) in
  (mkWorld (history w ++ [id]) (next_states w ++ [None]) (regressed w), id).

(** [advance_state(state)]: [self.next_state = state] *)
Definition advance_state (w : world) (self st : nat) : world :=
  set_next w self (Some st).

(** A button action [lambda: self.advance_state(StateX(stdscr))]: the new
    screen is constructed (and pushed) before [advance_state] runs. *)
Definition advance_new (w : world) (self : nat) : world * nat :=
  let '(w1, st) := construct w in (advance_state w1 self st, st).

(** [regress_state()]: [state_history.pop();
    self.next_state = state_history[-1]] *)
Definition regress_state (w : world) (self : nat) : outcome world :=
  match rev (history w) with
  | [] => Raise IndexError
  | _ :: rest =>
      match rest with
      | [] => Raise IndexError
      | top :: _ =>
          Ok (set_next (mkWorld (rev rest) (next_states w) (regressed w)) self (Some top))
      end
  end.

(** [update()]: returns the pending screen, if any, after calling its
    [on_regress] when it is [state_history[-1]]. *)
Definition update (w : world) (self : nat) : outcome (option nat * world) :=
  match next_of w self with
  | None => Ok (None, w)
  | Some st =>
      match rev (history w) with
      | [] => Raise IndexError
      | top :: _ =>
          let regressing := Nat.eqb top st in
          let w' := set_next w self None in
          if regressing
          then Ok (Some st, mkWorld (history w') (next_states w') (regressed w' ++ [st]))
          else Ok (Some st, w')
      end
  end.

End Nav.

(** ** Key codes of the curses module *)
Module Keys.
Definition KEY_DOWN : Z := 258.
Definition KEY_UP : Z := 259.
Definition KEY_LEFT : Z := 260.
Definition KEY_RIGHT : Z := 261.
Definition KEY_HOME : Z := 262.
Definition KEY_NPAGE : Z := 338.
Definition KEY_PPAGE : Z := 339.
Definition KEY_ENTER : Z := 343.
Definition KEY_END : Z := 360.
Definition ESC : Z := 27.
Definition BS : Z := 8.
Definition NO_KEY : Z := -1.
End Keys.

(** ** [MenuList] of components.py *)
Module MenuList.
Import Keys.

(** Modelled from the spec: [clamp] of utils.py (not among the sources),
    which keeps [value] within [[lo, hi]] ("clamped so the result stays
    within [0, len(items)-1]"). *)
Definition clamp (value lo hi : Z) : Z := Z.max lo (Z.min value hi).

Section Menu.
(** The callbacks the menu hands back. *)
Variable F : Type.

Record menu : Type := mkMenu {
  items : list string;
  functions : list F;
  selected : Z;
  offset : Z;
  menu_title_height : Z
}.

Definition with_position (m : menu) (sel off : Z) : menu :=
  mkMenu (items m) (functions m) sel off (menu_title_height m).

(** [scroll(scroll, selection)]; [height] is the row count of the
    terminal ([stdscr.getmaxyx()[0]]). *)
Definition scroll (height : Z) (m : menu) (scr selection : Z) : Z * Z :=
  if selection <? scr then (selection, selection)
  else if scr + height - 1 - menu_title_height m <=? selection
  then (selection - height + 1 + menu_title_height m, selection)
  else (scr, selection).

(** [wrap(selection, min, max)] *)
Definition wrap (selection mn mx : Z) : Z :=
  if selection <? mn then mx else if mx <? selection then mn else selection.

Fixpoint index_of (x : string) (l : list string) : option nat :=
  match l with
  | [] => None
  | y :: r => if String.eqb x y then Some O else option_map S (index_of x r)
  end.

Definition nth_fn (l : list F) (i : Z) : outcome F :=
  if i <? 0 then Raise IndexError
  else match nth_error l (Z.to_nat i) with
       | Some f => Ok f
       | None => Raise IndexError
       end.

(** The [vinput] that the first part of [handle_input] computes from
    [key], [len(self.items)] and [self.selected]. *)
Definition vinput (key n sel : Z) : Z :=
  let v1 := if key =? KEY_UP then -1 else 0 in
  let v2 := if key =? KEY_DOWN then v1 + 1 else v1 in
  let v3 := if key =? KEY_PPAGE then clamp (v2 - 10) (- sel) (n - 1 - sel) else v2 in
  let v4 := if key =? KEY_NPAGE then clamp (v3 + 10) (- sel) (n - 1 - sel) else v3 in
  let v5 := if key =? KEY_HOME then - sel else v4 in
  if key =? KEY_END then n - 1 - sel else v5.

(** [handle_input(key)]: the new menu and the callback returned. *)
Definition handle_input (height key : Z) (m : menu) : menu * outcome (option F) :=
  let n := Z.of_nat (length (items m)) in
  let sel := selected m in
  let v6 := vinput key n sel in
  match (if key =? ESC then index_of "Back" (items m) else None) with
  | Some back => (m, match nth_error (functions m) back with
                     | Some f => Ok (Some f)
                     | None => Raise IndexError
                     end)
  | None =>
      let sel1 := wrap (sel + v6) 0 (n - 1) in
      let '(off2, sel2) := scroll height m (offset m) sel1 in
      let m' := with_position m sel2 off2 in
      if (key =? KEY_ENTER) || (key =? 10) || (key =? 13)
      then (m', bind (nth_fn (functions m) sel2) (fun f => Ok (Some f)))
      else (m', Ok None)
  end.

(** A sequence of keys, each handled in turn. *)
Fixpoint run (height : Z) (keys : list Z) (m : menu) : menu :=
  match keys with
  | [] => m
  | k :: ks => run height ks (fst (handle_input height k m))
  end.

(** The spec's rule, with [viewport] = rows minus the title block. *)
Definition scroll_spec (viewport scr selection : Z) : Z :=
  if selection <? scr then selection
  else if scr + viewport <=? selection then selection - viewport + 1
  else scr.

End Menu.
Arguments mkMenu {F}.
Arguments items {F}. Arguments functions {F}. Arguments selected {F}.
Arguments offset {F}. Arguments menu_title_height {F}.

End MenuList.

(** ** Widgets and [Container] of components.py *)
Module Widgets.
Import Keys.

(** [Combobox]: its items and current index. *)
Record combobox : Type := mkCombobox { cb_items : list string; index : Z }.

(** [Combobox.handle_input] *)
Definition combobox_handle_input (key : Z) (cb : combobox) : combobox :=
  if key =? NO_KEY then cb
  else if key =? KEY_LEFT then mkCombobox (cb_items cb) (Z.max 0 (index cb - 1))
  else if key =? KEY_RIGHT
  then mkCombobox (cb_items cb) (Z.min (Z.of_nat (length (cb_items cb)) - 1) (index cb + 1))
  else cb.

(** The concrete widgets; a button's action is named by a number, and
    pressing the button reports it. *)
Inductive kind : Type :=
| Label (text : string)
| Combo (cb : combobox)
| Button (text : string) (action : nat)
| TextInput (text : string).

Record widget : Type := mkWidget {
  selectable : bool;
  selected : bool;
  wkind : kind
}.

(** The constructors: [selectable] is False for a label only, and no
    widget starts selected. *)
Definition make (k : kind) : widget :=
  match k with
  | Label _ => mkWidget false false k
  | _ => mkWidget true false k
  end.

Definition with_selected (w : widget) (b : bool) : widget :=
  mkWidget (selectable w) b (wkind w).

Definition drop_last (s : string) : string :=
  match rev (list_ascii_of_string s) with
  | [] => EmptyString
  | _ :: r => string_of_list_ascii (rev r)
  end.

(** [handle_input] of each widget kind; the actions fired come with it. *)
Definition kind_handle_input (key : Z) (k : kind) : outcome (kind * list nat) :=
  match k with
  | Label _ => Ok (k, [])
  | Combo cb => Ok (Combo (combobox_handle_input key cb), [])
  | Button t a =>
      if key =? NO_KEY then Ok (k, [])
      else if key =? 10 then Ok (k, [a])
      else Ok (k, [])
  | TextInput t =>
      if key =? NO_KEY then Ok (k, [])
      else if key =? ESC then Ok (TextInput EmptyString, [])
      else if key =? BS then Ok (TextInput (drop_last t), [])
      else if key =? 10 then Ok (k, [])
      else if key <? 256 then
        if key <? 0 then Raise ValueError
        else Ok (TextInput (t ++ String (ascii_of_nat (Z.to_nat key)) EmptyString)%string, [])
      else Ok (k, [])
  end.

(** [add_component]: append, and select the new widget when it is
    selectable and nothing is selected yet. *)
Definition add_component (cs : list widget) (k : kind) : list widget :=
  let cs' := cs ++ [make k] in
  if selectable (make k) && negb (existsb selected cs')
  then cs ++ [with_selected (make k) true]
  else cs'.

Fixpoint first_selected (cs : list widget) : option nat :=
  match cs with
  | [] => None
  | w :: r => if selected w then Some O else option_map S (first_selected r)
  end.

Definition dflt : widget := make (Label EmptyString).

(** [self.components[(i + v_movement) % len(self.components)]] *)
Definition at_offset (cs : list widget) (i : nat) (v : Z) : widget :=
  nth (Z.to_nat ((Z.of_nat i + v) mod Z.of_nat (length cs))) cs dflt.

(** How the [while] loop of [Container.handle_input] ends. *)
Inductive move : Type :=
| MoveBy (v : Z)
| MoveFault (e : exc)
| MoveLoops.

(** [while ....selectable == False: v_movement += v_movement // abs(v_movement)]
    for [v <> 0], tried [fuel] times; [len(components)] tries visit every
    index, so running out of them means the loop never stops. *)
Fixpoint seek (fuel : nat) (cs : list widget) (i : nat) (v : Z) : move :=
  match fuel with
  | O => MoveLoops
  | S f => if selectable (at_offset cs i v) then MoveBy v else seek f cs i (v + Z.sgn v)
  end.

Definition find_move (cs : list widget) (i : nat) (v : Z) : move :=
  if v =? 0 then
    if selectable (at_offset cs i v) then MoveBy v else MoveFault ZeroDivisionError
  else seek (length cs) cs i v.

(** Result of [Container.handle_input]. *)
Inductive result : Type :=
| Done (cs : list widget) (fired : list nat)
| Fault (e : exc)
| Loops.

(** [for component in self.components: if component.selected:
       component.handle_input(key)] *)
Fixpoint forward (key : Z) (cs : list widget) : result :=
  match cs with
  | [] => Done [] []
  | w :: r =>
      let here := if selected w then kind_handle_input key (wkind w) else Ok (wkind w, []) in
      match here with
      | Raise e => Fault e
      | Ok (k', f1) =>
          match forward key r with
          | Done r' f2 => Done (mkWidget (selectable w) (selected w) k' :: r') (f1 ++ f2)
          | other => other
          end
      end
  end.

(** [Container.handle_input(key)] *)
Definition handle_input (key : Z) (cs : list widget) : result :=
  if key =? NO_KEY then Done cs []
  else
    let v := if key =? KEY_DOWN then 1 else if key =? KEY_UP then -1 else 0 in
    match first_selected cs with
    | None => forward key cs
    | Some i =>
        let cs1 := list_set cs i (with_selected (nth i cs dflt) false) in
        match find_move cs1 i v with
        | MoveLoops => Loops
        | MoveFault e => Fault e
        | MoveBy v' =>
            let j := Z.to_nat ((Z.of_nat i + v') mod Z.of_nat (length cs1)) in
            forward key (list_set cs1 j (with_selected (nth j cs1 dflt) true))
        end
    end.

(** [key] sent [n] times. *)
Fixpoint press (n : nat) (key : Z) (cs : list widget) : result :=
  match n with
  | O => Done cs []
  | S n' =>
      match handle_input key cs with
      | Done cs' f1 =>
          match press n' key cs' with
          | Done cs'' f2 => Done cs'' (f1 ++ f2)
          | other => other
          end
      | other => other
      end
  end.

(** The containers the program can build: widgets added one by one,
    keys handled one by one. *)
Inductive reachable : list widget -> Prop :=
| reach_nil : reachable []
| reach_add cs k : reachable cs -> reachable (add_component cs k)
| reach_key cs key cs' fired :
    reachable cs -> handle_input key cs = Done cs' fired -> reachable cs'.

Definition count_selectable (cs : list widget) : nat := length (filter selectable cs).

(** Widget [i] is the selected one and no other is. *)
Definition selected_at (cs : list widget) (i : nat) : Prop :=
  (i < length cs)%nat /\ forall k, (k < length cs)%nat -> selected (nth k cs dflt) = Nat.eqb k i.

(** Number of selectable widgets before position [k] of the
    selectability flags [bs]: the place of a widget in the focus order. *)
Fixpoint rank (bs : list bool) (k : nat) : nat :=
  match k with
  | O => O
  | S k' => (rank bs k' + (if nth k' bs false then 1 else 0))%nat
  end.

(** What the constructors and [handle_input] keep true of a container:
    nothing is selected, or exactly one selectable widget is. *)
Definition focus_ok (cs : list widget) : Prop :=
  (forall k, selected (nth k cs dflt) = false) \/
  exists i, selected_at cs i /\ selectable (nth i cs dflt) = true.

End Widgets.

(** ** The activity screens of states.py: [StateNewActivity.create_activity],
    [StateEditActivity.save_activity] and [delete_activity] *)
Module ActivityScreens.
Import ActivityFile.

(** [create_activity()]: [name] is the text of the text input and [prio]
    the index of the priority combobox. The file is written before
    [regress_state] runs. *)
Definition create_activity (fs : file_store) (w : Nav.world) (self : nat)
  (name : string) (prio : Z) : file_store * outcome Nav.world :=
  match read_activities fs "activities.txt" with
  | Raise e => (fs, Raise e)
  | Ok acts =>
      (write_activities fs "activities.txt" (acts ++ [mkActivity name prio]),
       Nav.regress_state w self)
  end.

(** [for a in self.activities: if a.get_activity() == self.activity:
       a.priority = ...; break] *)
Fixpoint set_first_priority (name : string) (p : Z) (acts : list Activity)
  : list Activity :=
  match acts with
  | [] => []
  | a :: r =>
      if String.eqb (choice a) name then mkActivity (choice a) p :: r
      else a :: set_first_priority name p r
  end.

(** [save_activity()]: [acts] is [self.activities] (read when the screen
    was built), [idx] the index of the priority combobox; the updated list
    is kept and written. *)
Definition save_activity (fs : file_store) (acts : list Activity) (name : string)
  (idx : Z) : list Activity * file_store :=
  let acts' := set_first_priority name idx acts in
  (acts', write_activities fs "activities.txt" acts').

(** [for a in self.activities: if a.get_activity() == self.activity:
       self.activities.remove(a); break]; the records read from the file
    are distinct objects, so [remove(a)] drops [a] itself. *)
Fixpoint remove_first_named (name : string) (acts : list Activity) : list Activity :=
  match acts with
  | [] => []
  | a :: r => if String.eqb (choice a) name then r else a :: remove_first_named name r
  end.

(** [delete_activity()]: remove, write, then [regress_state]. *)
Definition delete_activity (fs : file_store) (acts : list Activity) (w : Nav.world)
  (self : nat) (name : string) : list Activity * file_store * outcome Nav.world :=
  let acts' := remove_first_named name acts in
  (acts', write_activities fs "activities.txt" acts', Nav.regress_state w self).

(** The shape of the lines of a text file: a body without line break,
    followed by its newline or (the last line) by nothing. *)
Definition line_shaped (l : string) : Prop :=
  exists body, forallb_chars not_line_break body = true /\
    (l = (body ++ String nl EmptyString)%string \/ l = body).

End ActivityScreens.

(** ** [StateWeekPlanner.export_plan] and [randomise_activities] *)
Module WeekPlanner.
Import Widgets.

(** [calendar.day_name] (English locale). *)
Definition day_name : list string :=
  ["Monday"; "Tuesday"; "Wednesday"; "Thursday"; "Friday"; "Saturday"; "Sunday"]%string.

(** [xs[i]] on a Python list: a negative [i] counts from the end. *)
Definition py_getitem {A : Type} (l : list A) (i : Z) : outcome A :=
  let n := Z.of_nat (length l) in
  let j := if i <? 0 then i + n else i in
  if (j <? 0) || (n <=? j) then Raise IndexError
  else match nth_error l (Z.to_nat j) with
       | Some x => Ok x
       | None => Raise IndexError
       end.

(** The [for component in components] loop of [export_plan]: [day] is
    the current day and [days] what the iterator still holds; [next(days)]
    past Sunday raises StopIteration, which [except: pass] swallows, so
    the day stays Sunday. *)
Fixpoint export_loop (cs : list widget) (day : string) (days : list string)
  (plan : string) : outcome string :=
  match cs with
  | [] => Ok plan
  | w :: r =>
      match wkind w with
      | Combo cb =>
          bind (py_getitem (cb_items cb) (index cb)) (fun it =>
            let plan' := (plan ++ day ++ ": " ++ it ++ String nl EmptyString)%string in
            match days with
            | [] => export_loop r day [] plan'
            | d :: ds => export_loop r d ds plan'
            end)
      | _ => export_loop r day days plan
      end
  end.

(** The plan text [export_plan] writes: [days = iter(day_name);
    day = next(days)], then the loop. *)
Definition export_plan_text (cs : list widget) : outcome string :=
  match day_name with
  | d :: ds => export_loop cs d ds EmptyString
  | [] => Ok EmptyString
  end.

(** [randomise_activities()]: each combobox in turn gets
    [items.index(self.get_random_activity())]. [rnd k] is the generator's
    draw function at the [k]-th call; the components are updated in place,
    so the ones before a raising call keep their new index. *)
Fixpoint randomise_loop (rnd : nat -> nat -> nat) (k : nat) (fs : ActivityFile.file_store)
  (dir : option (list (string * string))) (h : Scheduler.heap) (cs : list widget)
  : Scheduler.heap * list widget * outcome unit :=
  match cs with
  | [] => (h, [], Ok tt)
  | w :: r =>
      match wkind w with
      | Combo cb =>
          match Scheduler.get_random_activity (rnd k) fs dir h with
          | (h1, Raise e) => (h1, cs, Raise e)
          | (h1, Ok c) =>
              match MenuList.index_of c (cb_items cb) with
              | None => (h1, cs, Raise ValueError)
              | Some i =>
                  let w' := mkWidget (selectable w) (selected w)
                              (Combo (mkCombobox (cb_items cb) (Z.of_nat i))) in
                  let '(h2, r', res) := randomise_loop rnd (S k) fs dir h1 r in
                  (h2, w' :: r', res)
              end
          end
      | _ =>
          let '(h2, r', res) := randomise_loop rnd k fs dir h r in
          (h2, w :: r', res)
      end
  end.

Definition randomise_activities (rnd : nat -> nat -> nat) (fs : ActivityFile.file_store)
  (dir : option (list (string * string))) (h : Scheduler.heap) (cs : list widget)
  : Scheduler.heap * list widget * outcome unit :=
  randomise_loop rnd 0 fs dir h cs.

(** The comboboxes of a container, in order ([isinstance(component, Combobox)]). *)
Fixpoint combo_boxes (cs : list widget) : list combobox :=
  match cs with
  | [] => []
  | w :: r =>
      match wkind w with
      | Combo cb => cb :: combo_boxes r
      | _ => combo_boxes r
      end
  end.

End WeekPlanner.

(** ** The menu of [StateEditActivities] *)
Module EditMenu.
Import ActivityFile MenuList.

(** The callbacks of the menu: open [StateEditActivity] for a name, or
    [regress_state]. *)
Inductive action : Type :=
| OpenEdit (name : string)
| GoBack.

(** [create_list_menu()]: the names, then "Back"; [MenuList.__init__]
    starts at selection 0, offset 0 and title height 2. *)
Definition create_list_menu (fs : file_store) : outcome (menu action) :=
  bind (read_activities fs "activities.txt") (fun acts =>
    let names := map choice acts in
    Ok (mkMenu (names ++ ["Back"%string]) (map OpenEdit names ++ [GoBack]) 0 0 2)).

(** [update_list_menu()]: new items and callbacks, and
    [if self.list_menu.selected > 0: self.list_menu.selected -= 1]. *)
Definition update_list_menu (fs : file_store) (m : menu action) : outcome (menu action) :=
  bind (read_activities fs "activities.txt") (fun acts =>
    let names := map choice acts in
    Ok (mkMenu (names ++ ["Back"%string]) (map OpenEdit names ++ [GoBack])
               (if 0 <? selected m then selected m - 1 else selected m)
               (offset m) (menu_title_height m))).

End EditMenu.

(** * Properties *)

(** ** The activity file (activity.py) *)
Section ActivityFileProofs.
Import ActivityFile.

Lemma str_app_assoc (a b c : string) :
  ((a ++ b) ++ c)%string = (a ++ (b ++ c))%string.
Proof. induction a; simpl; congruence. Qed.

Lemma str_app_nil_r (a : string) : (a ++ EmptyString)%string = a.
Proof. induction a; simpl; congruence. Qed.

Lemma forallb_chars_app f a b :
  forallb_chars f (a ++ b) = forallb_chars f a && forallb_chars f b.
Proof. induction a; simpl; [reflexivity|]. rewrite IHa, andb_assoc. reflexivity. Qed.

Lemma split_nonempty sep s : split sep s <> [].
Proof.
  destruct s as [|c r]; simpl; [discriminate|].
  destruct (Ascii.eqb c sep); [discriminate|].
  destruct (split sep r); discriminate.
Qed.

Lemma split_app_sep sep s t :
  split sep (s ++ String sep t) = split sep s ++ split sep t.
Proof.
  induction s as [|c r IH]; simpl.
  - rewrite Ascii.eqb_refl. reflexivity.
  - rewrite IH. destruct (Ascii.eqb c sep); [reflexivity|].
    destruct (split sep r) eqn:E; [exfalso; exact (split_nonempty sep r E)|].
    reflexivity.
Qed.

Lemma split_no_sep sep t :
  forallb_chars (fun c => negb (Ascii.eqb c sep)) t = true ->
  split sep t = [t].
Proof.
  induction t as [|c r IH]; simpl; [reflexivity|].
  intros H. apply andb_prop in H as [H1 H2].
  rewrite IH by exact H2. destruct (Ascii.eqb c sep); [discriminate|reflexivity].
Qed.

Lemma join_split sep s : join sep (split sep s) = s.
Proof.
  induction s as [|c r IH]; simpl; [reflexivity|].
  destruct (Ascii.eqb c sep) eqn:E.
  - apply Ascii.eqb_eq in E; subst c.
    destruct (split sep r) as [|p ps] eqn:Hs; [exfalso; exact (split_nonempty sep r Hs)|].
    transitivity (String sep (join sep (p :: ps))); [reflexivity|].
    rewrite IH. reflexivity.
  - destruct (split sep r) as [|p ps] eqn:Hs; [exfalso; exact (split_nonempty sep r Hs)|].
    destruct ps as [|q qs]; [simpl in *; congruence|].
    transitivity (String c (join sep (p :: q :: qs))); [reflexivity|].
    rewrite IH. reflexivity.
Qed.

Lemma removelast_app_single {A} (l : list A) (x : A) : removelast (l ++ [x]) = l.
Proof. apply removelast_last. Qed.

Lemma last_item_app l x : last_item (l ++ [x]) = Ok x.
Proof. unfold last_item. rewrite rev_app_distr. reflexivity. Qed.

Lemma digit_value_char d : 0 <= d < 10 -> digit_value (digit_char d) = Some d.
Proof.
  intros H.
  assert (d = 0 \/ d = 1 \/ d = 2 \/ d = 3 \/ d = 4 \/ d = 5 \/ d = 6
          \/ d = 7 \/ d = 8 \/ d = 9) as Hd by lia.
  repeat destruct Hd as [Hd|Hd]; subst d; reflexivity.
Qed.

Lemma digit_char_props d : 0 <= d < 10 ->
  isspace (digit_char d) = false /\ Ascii.eqb (digit_char d) ","%char = false
  /\ not_line_break (digit_char d) = true
  /\ Ascii.eqb (digit_char d) "-"%char = false
  /\ Ascii.eqb (digit_char d) "+"%char = false.
Proof.
  intros H.
  assert (d = 0 \/ d = 1 \/ d = 2 \/ d = 3 \/ d = 4 \/ d = 5 \/ d = 6
          \/ d = 7 \/ d = 8 \/ d = 9) as Hd by lia.
  repeat destruct Hd as [Hd|Hd]; subst d; vm_compute; repeat split.
Qed.

(** Parsing the digits [pos_digits] prints gives the number back. *)
Lemma parse_pos_digits f n s :
  0 <= n -> n < Z.of_nat f ->
  parse_digits 0 false (pos_digits f n s) = parse_digits n true s.
Proof.
  revert n s. induction f as [|f IH]; intros n s Hn Hf; [lia|].
  cbn [pos_digits].
  assert (Hm : 0 <= n mod 10 < 10) by (apply Z.mod_pos_bound; lia).
  destruct (n <? 10) eqn:E.
  - apply Z.ltb_lt in E. cbn [parse_digits]. rewrite digit_value_char by exact Hm.
    rewrite Z.mod_small by lia. reflexivity.
  - apply Z.ltb_ge in E. rewrite IH.
    + cbn [parse_digits]. rewrite digit_value_char by exact Hm.
      f_equal. pose proof (Z.div_mod n 10 ltac:(lia)). lia.
    + apply Z.div_pos; lia.
    + assert (n / 10 < n) by (apply Z.div_lt; lia). lia.
Qed.

Lemma pos_digits_shape f n s :
  0 <= n -> (0 < f)%nat ->
  exists pre, pos_digits f n s = (pre ++ String (digit_char (n mod 10)) s)%string.
Proof.
  revert n s. induction f as [|f IH]; intros n s Hn Hf; [lia|].
  simpl pos_digits. destruct (n <? 10) eqn:E.
  - exists EmptyString. reflexivity.
  - apply Z.ltb_ge in E. destruct f as [|f'].
    + simpl. exists EmptyString. reflexivity.
    + destruct (IH (n / 10) (String (digit_char (n mod 10)) s)) as [pre Hp];
        [apply Z.div_pos; lia | lia |].
      rewrite Hp. exists (pre ++ String (digit_char (n / 10 mod 10)) EmptyString)%string.
      rewrite str_app_assoc. reflexivity.
Qed.

Lemma pos_digits_chars (P : ascii -> bool) f n s :
  (forall d, 0 <= d < 10 -> P (digit_char d) = true) ->
  forallb_chars P s = true ->
  forallb_chars P (pos_digits f n s) = true.
Proof.
  intros HP. revert n s. induction f as [|f IH]; intros n s Hs; simpl; [exact Hs|].
  assert (Hm : 0 <= n mod 10 < 10) by (apply Z.mod_pos_bound; lia).
  destruct (n <? 10); [simpl; rewrite HP, Hs by exact Hm; reflexivity|].
  apply IH. simpl. rewrite HP, Hs by exact Hm. reflexivity.
Qed.

Lemma rstrip_app s t :
  rstrip t <> EmptyString -> rstrip (s ++ t) = (s ++ rstrip t)%string.
Proof.
  intros H. induction s as [|c r IH]; simpl; [reflexivity|].
  rewrite IH. destruct r; simpl.
  - destruct (rstrip t) eqn:E; [congruence|]. reflexivity.
  - reflexivity.
Qed.

Lemma lstrip_head c r : isspace c = false -> lstrip (String c r) = String c r.
Proof. simpl. intros H. rewrite H. reflexivity. Qed.

Lemma pos_digits_head f n s :
  (0 < f)%nat -> exists d u, 0 <= d < 10 /\ pos_digits f n s = String (digit_char d) u.
Proof.
  revert n s. induction f as [|f IH]; intros n s Hf; [lia|].
  assert (Hm : 0 <= n mod 10 < 10) by (apply Z.mod_pos_bound; lia).
  cbn [pos_digits]. destruct (n <? 10).
  - exists (n mod 10), s. auto.
  - destruct f as [|f'].
    + exists (n mod 10), s. auto.
    + apply IH. lia.
Qed.

Lemma rstrip_digit_end pre d :
  0 <= d < 10 -> rstrip (pre ++ String (digit_char d) EmptyString) =
                 (pre ++ String (digit_char d) EmptyString)%string.
Proof.
  intros Hd. destruct (digit_char_props d Hd) as [Hs _].
  rewrite rstrip_app; cbn [rstrip]; rewrite ?Hs, andb_false_r; [reflexivity|discriminate].
Qed.

Lemma str_shape z :
  exists pre d, 0 <= d < 10 /\ str z = (pre ++ String (digit_char d) EmptyString)%string.
Proof.
  unfold str. destruct (z <? 0) eqn:E.
  - apply Z.ltb_lt in E.
    destruct (pos_digits_shape (S (Z.to_nat (- z))) (- z) EmptyString) as [pre Hp];
      [lia | lia |].
    exists (String "-"%char pre), (- z mod 10). split; [apply Z.mod_pos_bound; lia|].
    rewrite Hp. reflexivity.
  - apply Z.ltb_ge in E.
    destruct (pos_digits_shape (S (Z.to_nat z)) z EmptyString) as [pre Hp]; [lia | lia |].
    exists pre, (z mod 10). split; [apply Z.mod_pos_bound; lia|]. exact Hp.
Qed.

Lemma str_chars (P : ascii -> bool) z :
  P "-"%char = true -> (forall d, 0 <= d < 10 -> P (digit_char d) = true) ->
  forallb_chars P (str z) = true.
Proof.
  intros Hm Hd. unfold str. destruct (z <? 0).
  - cbn [forallb_chars]. rewrite Hm. apply pos_digits_chars; auto.
  - apply pos_digits_chars; auto.
Qed.

Lemma strip_str z : strip (str z) = str z.
Proof.
  destruct (str_shape z) as [pre [d [Hd Hshape]]].
  unfold strip. assert (Hl : lstrip (str z) = str z).
  { unfold str. destruct (z <? 0) eqn:E.
    - apply lstrip_head. reflexivity.
    - destruct (pos_digits_head (S (Z.to_nat z)) z EmptyString) as [d' [u [Hd' Hp]]];
        [lia|].
      rewrite Hp. apply lstrip_head. apply digit_char_props. exact Hd'. }
  rewrite Hl, Hshape. apply rstrip_digit_end. exact Hd.
Qed.

(** [int(str(z)) == z] *)
Lemma int_str z : int (str z) = Ok z.
Proof.
  unfold int. cbv zeta. rewrite strip_str. unfold str.
  destruct (z <? 0) eqn:E.
  - apply Z.ltb_lt in E. rewrite Ascii.eqb_refl.
    rewrite parse_pos_digits by lia. cbn. rewrite Z.opp_involutive. reflexivity.
  - apply Z.ltb_ge in E.
    destruct (pos_digits_head (S (Z.to_nat z)) z EmptyString) as [d [u [Hd Hp]]]; [lia|].
    rewrite Hp. destruct (digit_char_props d Hd) as [_ [_ [_ [Hm Hpl]]]].
    rewrite Hm, Hpl. rewrite <- Hp. rewrite parse_pos_digits by lia. reflexivity.
Qed.

Lemma lines_line body rest :
  forallb_chars not_line_break body = true ->
  lines (body ++ String nl rest) = (body ++ String nl EmptyString)%string :: lines rest.
Proof.
  induction body as [|c r IH]; intros H.
  - reflexivity.
  - cbn [forallb_chars] in H. apply andb_prop in H as [Hc Hr].
    unfold not_line_break in Hc. apply andb_prop in Hc as [Hn Hcr].
    apply negb_true_iff in Hn, Hcr.
    cbn [append lines]. rewrite Hn, Hcr, IH by exact Hr. reflexivity.
Qed.

Lemma format_activity_body a :
  format_activity a = (line_body a ++ String nl EmptyString)%string.
Proof.
  unfold format_activity, line_body. rewrite str_app_assoc. reflexivity.
Qed.

Lemma line_body_no_break a :
  name_ok (choice a) = true -> forallb_chars not_line_break (line_body a) = true.
Proof.
  unfold name_ok, line_body. intros H. apply andb_prop in H as [H _].
  rewrite forallb_chars_app, H. cbn [forallb_chars].
  rewrite (str_chars not_line_break); [reflexivity | reflexivity |].
  intros d Hd. apply digit_char_props. exact Hd.
Qed.

Lemma strip_line a :
  name_ok (choice a) = true ->
  strip (line_body a ++ String nl EmptyString) = line_body a.
Proof.
  intros H. unfold strip.
  assert (Hl : lstrip (line_body a ++ String nl EmptyString)
               = (line_body a ++ String nl EmptyString)%string).
  { unfold line_body, name_ok in *. destruct (choice a) as [|c r].
    - apply lstrip_head. reflexivity.
    - apply andb_prop in H as [_ H]. apply negb_true_iff in H.
      apply lstrip_head. exact H. }
  rewrite Hl. destruct (str_shape (priority a)) as [pre [d [Hd Hs]]].
  unfold line_body. rewrite Hs.
  replace ((choice a ++ String ","%char (pre ++ String (digit_char d) EmptyString))
             ++ String nl EmptyString)%string
    with ((choice a ++ String ","%char pre) ++ String (digit_char d) (String nl EmptyString))%string
    by (rewrite !str_app_assoc; cbn [append]; rewrite !str_app_assoc; reflexivity).
  destruct (digit_char_props d Hd) as [Hsp _].
  rewrite rstrip_app; cbn [rstrip].
  - rewrite Hsp, andb_false_r, str_app_assoc. reflexivity.
  - rewrite Hsp, andb_false_r. discriminate.
Qed.

Lemma parse_formatted a :
  name_ok (choice a) = true -> parse_line (format_activity a) = Ok a.
Proof.
  intros H. unfold parse_line. rewrite format_activity_body, strip_line by exact H.
  unfold line_body. rewrite split_app_sep.
  rewrite (split_no_sep ","%char (str (priority a))).
  - rewrite removelast_app_single, join_split, last_item_app. cbn [bind].
    rewrite int_str. destruct a; reflexivity.
  - apply str_chars; [reflexivity|]. intros d Hd. apply negb_true_iff, digit_char_props, Hd.
Qed.

Lemma parse_format_contents acts :
  Forall (fun a => name_ok (choice a) = true) acts ->
  parse_contents (format_contents acts) = Ok acts.
Proof.
  unfold parse_contents. induction 1 as [|a acts Ha Hacts IH]; [reflexivity|].
  cbn [format_contents]. rewrite format_activity_body, str_app_assoc. cbn [append].
  rewrite lines_line by (apply line_body_no_break; exact Ha).
  cbn [parse_lines]. rewrite <- format_activity_body, parse_formatted by exact Ha.
  cbn [bind]. rewrite IH. reflexivity.
Qed.

End ActivityFileProofs.

(** ** The scheduler (states.py) *)
Section SchedulerProofs.
Import ActivityFile Scheduler.

Lemma length_set h l a : length (set h l a) = length h.
Proof.
  revert l. induction h as [|x r IH]; intros [|l]; simpl; auto.
Qed.

Lemma get_set_eq h l a : (l < length h)%nat -> get (set h l a) l = a.
Proof.
  unfold get. revert l. induction h as [|x r IH]; intros [|l] Hl; simpl in *; try lia.
  - reflexivity.
  - apply IH. lia.
Qed.

Lemma get_set_neq h l l' a : l <> l' -> get (set h l a) l' = get h l'.
Proof.
  unfold get. revert l l'. induction h as [|x r IH]; intros [|l] [|l'] Hne; simpl;
    try reflexivity; try congruence; apply IH; congruence.
Qed.

Lemma length_bump_one found h l : length (bump_one found h l) = length h.
Proof.
  unfold bump_one. destruct (negb _); [apply length_set | reflexivity].
Qed.

Lemma get_bump_one_other found h l0 l :
  l0 <> l -> get (bump_one found h l0) l = get h l.
Proof.
  intros Hne. unfold bump_one. destruct (negb _); [apply get_set_neq, Hne | reflexivity].
Qed.

Lemma length_bump h locs found : length (bump h locs found) = length h.
Proof.
  unfold bump. revert h. induction locs as [|l r IH]; intros h; simpl; [reflexivity|].
  rewrite IH. apply length_bump_one.
Qed.

Lemma get_bump_outside h locs found l :
  ~ In l locs -> get (bump h locs found) l = get h l.
Proof.
  unfold bump. revert h. induction locs as [|l0 r IH]; intros h Hn; simpl; [reflexivity|].
  simpl in Hn. rewrite IH by tauto. apply get_bump_one_other. tauto.
Qed.

Lemma get_bump_inside h locs found l :
  NoDup locs -> (forall l', In l' locs -> (l' < length h)%nat) -> In l locs ->
  get (bump h locs found) l = bumped found (get h l).
Proof.
  unfold bump. revert h. induction locs as [|l0 r IH]; intros h Hnd Hlen Hin;
    [destruct Hin|].
  inversion Hnd as [|x y Hnotin Hnd']; subst. simpl.
  destruct Hin as [<-|Hin].
  - fold (bump (bump_one found h l0) r found). rewrite get_bump_outside by exact Hnotin.
    unfold bump_one, bumped. destruct (mem (choice (get h l0)) found) eqn:E; simpl.
    + destruct (get h l0); simpl; f_equal; lia.
    + rewrite get_set_eq by (apply Hlen; left; reflexivity). reflexivity.
  - rewrite IH; [| exact Hnd' | | exact Hin].
    + rewrite get_bump_one_other; [reflexivity|]. intros ->. contradiction.
    + intros l' Hl'. rewrite length_bump_one. apply Hlen. right. exact Hl'.
Qed.

Lemma scan_lines_found ls all found all' found' :
  scan_lines ls all found = Ok (all', found') -> exists extra, found' = found ++ extra.
Proof.
  revert all found. induction ls as [|line rest IH]; intros all found H; simpl in H.
  - inversion H; subst. exists []. rewrite app_nil_r. reflexivity.
  - destruct (plan_entry line) as [a|e]; simpl in H; [|discriminate].
    destruct (mem a all).
    + destruct (IH _ _ H) as [extra ->]. exists (a :: extra).
      rewrite <- app_assoc. reflexivity.
    + exact (IH _ _ H).
Qed.

Lemma adjust_loop_outside plans h locs all found l :
  ~ In l locs -> get (fst (adjust_loop plans h locs all found)) l = get h l.
Proof.
  intros Hn. revert h all found. induction plans as [|p ps IH]; intros h all found;
    simpl; [reflexivity|].
  unfold adjust_round. destruct (scan_lines (lines p) all found) as [[all' found']|e];
    simpl; [|reflexivity].
  destruct all'; simpl.
  - apply get_bump_outside, Hn.
  - rewrite IH. apply get_bump_outside, Hn.
Qed.

Lemma adjust_priorities_outside dir h locs l :
  ~ In l locs -> get (fst (adjust_priorities dir h locs)) l = get h l.
Proof.
  intros Hn. unfold adjust_priorities. destruct dir as [[|p ps]|]; try reflexivity.
  destruct (adjust_loop _ _ _ _ _) as [h' r] eqn:E. simpl.
  rewrite <- (adjust_loop_outside (map snd (sort_desc (p :: ps))) h locs
                (map (fun l0 => choice (get h l0)) locs) [] l Hn).
  rewrite E. reflexivity.
Qed.

Lemma adjust_priorities_result dir h locs :
  (exists e, snd (adjust_priorities dir h locs) = Raise e)
  \/ snd (adjust_priorities dir h locs) = Ok locs.
Proof.
  unfold adjust_priorities. destruct dir as [[|p ps]|]; simpl; eauto.
  destruct (adjust_loop _ _ _ _ _) as [h' [u|e]]; simpl; eauto.
Qed.

Lemma in_repeat_pos (x y : string) n : (0 < n)%nat -> (In y (repeat x n) <-> y = x).
Proof.
  intros Hn. split; [apply repeat_spec|]. intros ->. destruct n; [lia|]. left. reflexivity.
Qed.

Lemma get_app_l (h acts : heap) l : (l < length h)%nat -> get (h ++ acts) l = get h l.
Proof. intros Hl. unfold get. apply app_nth1, Hl. Qed.
End SchedulerProofs.

(** ** [MenuList] (components.py) *)
Section MenuProofs.
Import MenuList Keys.

Lemma scroll_snd F h (m : menu F) s sel : snd (scroll F h m s sel) = sel.
Proof. unfold scroll. destruct (sel <? s); [reflexivity|]. destruct (_ <=? _); reflexivity. Qed.

Lemma wrap_range sel n : 1 <= n -> 0 <= wrap sel 0 (n - 1) < n.
Proof. intros. unfold wrap. destruct (sel <? 0) eqn:E1; [lia|]. destruct (n - 1 <? sel) eqn:E2; lia. Qed.

Lemma handle_input_cases F height key (m : menu F) :
  fst (handle_input F height key m) = m
  \/ (let sel1 := wrap (selected m + vinput key (Z.of_nat (length (items m))) (selected m)) 0
                     (Z.of_nat (length (items m)) - 1) in
      fst (handle_input F height key m)
      = with_position F m sel1 (fst (scroll F height m (offset m) sel1))).
Proof.
  unfold handle_input. cbv zeta.
  destruct (if key =? ESC then index_of "Back"%string (items m) else None) as [b|].
  - left. reflexivity.
  - right. destruct (scroll F height m (offset m) _) as [o s] eqn:E.
    pose proof (scroll_snd F height m (offset m) (wrap (selected m + vinput key (Z.of_nat (length (items m))) (selected m)) 0 (Z.of_nat (length (items m)) - 1))) as Hs.
    rewrite E in Hs. simpl in Hs. subst s. simpl.
    destruct (_ || _); reflexivity.
Qed.

Lemma handle_input_not_esc F height key (m : menu F) :
  key <> ESC ->
  let sel1 := wrap (selected m + vinput key (Z.of_nat (length (items m))) (selected m)) 0
                   (Z.of_nat (length (items m)) - 1) in
  fst (handle_input F height key m)
  = with_position F m sel1 (fst (scroll F height m (offset m) sel1)).
Proof.
  intros Hk. unfold handle_input. cbv zeta.
  replace (key =? ESC) with false by (symmetry; apply Z.eqb_neq; exact Hk).
  destruct (scroll F height m (offset m) _) as [o s] eqn:E.
  pose proof (scroll_snd F height m (offset m) (wrap (selected m + vinput key (Z.of_nat (length (items m))) (selected m)) 0 (Z.of_nat (length (items m)) - 1))) as Hs.
  rewrite E in Hs. simpl in Hs. subst s. simpl.
  destruct (_ || _); reflexivity.
Qed.

Lemma handle_input_title F height key (m : menu F) :
  menu_title_height (fst (handle_input F height key m)) = menu_title_height m.
Proof.
  destruct (handle_input_cases F height key m) as [H|H]; rewrite H; reflexivity.
Qed.

Lemma scroll_matches_spec F height (m : menu F) scr sel :
  fst (scroll F height m scr sel) = scroll_spec (height - menu_title_height m) scr sel.
Proof.
  unfold scroll, scroll_spec.
  destruct (sel <? scr) eqn:E1; [reflexivity|].
  destruct (scr + height - 1 - menu_title_height m <=? sel) eqn:E2;
    destruct (scr + (height - menu_title_height m) <=? sel) eqn:E3;
    rewrite ?Z.ltb_lt, ?Z.ltb_ge, ?Z.leb_le, ?Z.leb_gt in *; simpl; lia.
Qed.

Lemma scroll_spec_window v scr sel :
  1 <= v -> scroll_spec v scr sel <= sel < scroll_spec v scr sel + v.
Proof.
  intros Hv. unfold scroll_spec.
  destruct (sel <? scr) eqn:E1; [lia|].
  destruct (scr + v <=? sel) eqn:E2; rewrite ?Z.ltb_lt, ?Z.ltb_ge, ?Z.leb_le, ?Z.leb_gt in *; lia.
Qed.

Lemma handle_input_window F height key (m : menu F) :
  1 <= height - menu_title_height m ->
  offset m <= selected m < offset m + (height - menu_title_height m) ->
  let m' := fst (handle_input F height key m) in
  offset m' <= selected m' < offset m' + (height - menu_title_height m').
Proof.
  intros Hv Hinv. cbv zeta.
  destruct (handle_input_cases F height key m) as [H|H]; rewrite H; [exact Hinv|].
  simpl. rewrite scroll_matches_spec. apply scroll_spec_window, Hv.
Qed.

End MenuProofs.

(** ** [list[i] = x] *)
Section ListSetProofs.

Lemma length_list_set {A : Type} (l : list A) i x : length (list_set l i x) = length l.
Proof. revert i. induction l as [|y r IH]; intros [|i]; simpl; auto. Qed.

Lemma nth_list_set_eq {A : Type} (l : list A) i x d :
  (i < length l)%nat -> nth i (list_set l i x) d = x.
Proof.
  revert i. induction l as [|y r IH]; intros [|i] Hi; simpl in *; try lia; auto.
  apply IH. lia.
Qed.

Lemma nth_list_set_neq {A : Type} (l : list A) i j x d :
  i <> j -> nth j (list_set l i x) d = nth j l d.
Proof.
  revert i j. induction l as [|y r IH]; intros [|i] [|j] Hij; simpl; auto; try congruence.
Qed.

Lemma nth_snoc {A : Type} (l : list A) w k d :
  nth k (l ++ [w]) d =
  if (k <? length l)%nat then nth k l d else if (k =? length l)%nat then w else d.
Proof.
  destruct (Nat.ltb_spec k (length l)).
  - apply app_nth1. assumption.
  - rewrite app_nth2 by assumption.
    destruct (Nat.eqb_spec k (length l)).
    + subst. rewrite Nat.sub_diag. reflexivity.
    + destruct (k - length l)%nat as [|m] eqn:E; [lia|]. destruct m; reflexivity.
Qed.

End ListSetProofs.

(** ** [Container] (components.py) *)
Section ContainerProofs.
Import Keys Widgets.

Lemma mod_minus (a n : nat) : (n <= a < n + n)%nat -> (a mod n = a - n)%nat.
Proof. intros H. symmetry. apply (Nat.mod_unique a n 1); lia. Qed.

Lemma mod_small_eq (a n : nat) : (a < n)%nat -> (a mod n = a)%nat.
Proof. intros H. symmetry. apply (Nat.mod_unique a n 0); lia. Qed.

(** *** The focus order *)

Lemma rank_S bs k :
  rank bs (S k) = (rank bs k + (if nth k bs false then 1 else 0))%nat.
Proof. reflexivity. Qed.

Lemma rank_mono bs a b : (a <= b)%nat -> (rank bs a <= rank bs b)%nat.
Proof.
  induction 1 as [|b Hab IH]; [lia|]. rewrite rank_S. destruct (nth b bs false); lia.
Qed.

Lemma rank_lt bs a b :
  nth a bs false = true -> (a < b)%nat -> (rank bs a < rank bs b)%nat.
Proof.
  intros Ha Hab. pose proof (rank_mono bs (S a) b Hab) as H.
  rewrite rank_S, Ha in H. lia.
Qed.

Lemma rank_inj bs a b :
  nth a bs false = true -> nth b bs false = true -> rank bs a = rank bs b -> a = b.
Proof.
  intros Ha Hb E. destruct (lt_eq_lt_dec a b) as [[H|H]|H]; auto.
  - pose proof (rank_lt bs a b Ha H). lia.
  - pose proof (rank_lt bs b a Hb H). lia.
Qed.

Lemma rank_gap bs a b :
  (a <= b)%nat -> (forall m, (a <= m < b)%nat -> nth m bs false = false) ->
  rank bs b = rank bs a.
Proof.
  induction 1 as [|b Hab IH]; intros Hgap; [reflexivity|].
  rewrite rank_S, (Hgap b) by lia. rewrite IH by (intros; apply Hgap; lia). lia.
Qed.

Lemma rank_cons b bs k :
  rank (b :: bs) (S k) = ((if b then 1 else 0) + rank bs k)%nat.
Proof.
  induction k as [|k IH]; [simpl; lia|].
  rewrite rank_S, IH, rank_S. simpl. lia.
Qed.

Lemma count_rank cs :
  count_selectable cs = rank (map selectable cs) (length (map selectable cs)).
Proof.
  unfold count_selectable. induction cs as [|w r IH]; [reflexivity|].
  cbn [map length]. rewrite rank_cons, <- IH. cbn [filter]. destruct (selectable w); reflexivity.
Qed.

(** One step of the focus order: from a selectable [i], the first
    selectable index cyclically after it. *)
Lemma rank_next bs i w :
  (i < length bs)%nat -> nth i bs false = true ->
  (1 <= w <= length bs)%nat ->
  nth ((i + w) mod length bs) bs false = true ->
  (forall u, (1 <= u < w)%nat -> nth ((i + u) mod length bs) bs false = false) ->
  rank bs ((i + w) mod length bs) = ((rank bs i + 1) mod rank bs (length bs))%nat.
Proof.
  intros Hi Hsel Hw Hj Hgap. set (n := length bs) in *.
  destruct (Nat.ltb_spec (i + w) n) as [Hlt|Hge].
  - rewrite mod_small_eq in * by assumption.
    assert (E : rank bs (i + w) = rank bs (S i)).
    { apply rank_gap; [lia|]. intros m Hm.
      specialize (Hgap (m - i)%nat ltac:(lia)).
      rewrite mod_small_eq in Hgap by lia.
      replace (i + (m - i))%nat with m in Hgap by lia. exact Hgap. }
    rewrite E, rank_S, Hsel in *.
    pose proof (rank_lt bs (i + w) n Hj Hlt). rewrite mod_small_eq; lia.
  - rewrite mod_minus in * by lia.
    assert (E0 : rank bs (i + w - n) = rank bs 0).
    { apply rank_gap; [lia|]. intros m Hm.
      specialize (Hgap (m + n - i)%nat ltac:(lia)).
      rewrite mod_minus in Hgap by lia.
      replace (i + (m + n - i) - n)%nat with m in Hgap by lia. exact Hgap. }
    assert (En : rank bs n = rank bs (S i)).
    { apply rank_gap; [lia|]. intros m Hm.
      specialize (Hgap (m - i)%nat ltac:(lia)).
      rewrite mod_small_eq in Hgap by lia.
      replace (i + (m - i))%nat with m in Hgap by lia. exact Hgap. }
    rewrite E0, En, rank_S, Hsel. rewrite Nat.Div0.mod_same. reflexivity.
Qed.

(** *** Flags *)

Lemma nth_sel cs k : nth k (map selectable cs) false = selectable (nth k cs dflt).
Proof. change false with (selectable dflt). apply map_nth. Qed.

Lemma map_sel_list_set cs i w :
  selectable w = selectable (nth i cs dflt) ->
  map selectable (list_set cs i w) = map selectable cs.
Proof.
  revert i. induction cs as [|x r IH]; intros [|i] H; simpl in *; auto.
  - rewrite H. reflexivity.
  - rewrite IH; auto.
Qed.

Lemma forward_flags key cs cs' fired :
  forward key cs = Done cs' fired ->
  map (fun w => (selectable w, selected w)) cs' = map (fun w => (selectable w, selected w)) cs.
Proof.
  revert cs' fired. induction cs as [|w r IH]; intros cs' fired H; simpl in H.
  - inversion H. reflexivity.
  - destruct (if selected w then kind_handle_input key (wkind w) else Ok (wkind w, []))
      as [[k' f1]|e]; [|discriminate].
    destruct (forward key r) as [r' f2| |] eqn:E; try discriminate.
    inversion H; subst. simpl. f_equal. eapply IH. reflexivity.
Qed.

Lemma forward_nth key cs cs' fired k :
  forward key cs = Done cs' fired ->
  selectable (nth k cs' dflt) = selectable (nth k cs dflt) /\
  selected (nth k cs' dflt) = selected (nth k cs dflt).
Proof.
  revert cs' fired k. induction cs as [|w r IH]; intros cs' fired k H; simpl in H.
  - inversion H. auto.
  - destruct (if selected w then kind_handle_input key (wkind w) else Ok (wkind w, []))
      as [[k' f1]|e]; [|discriminate].
    destruct (forward key r) as [r' f2| |] eqn:E; try discriminate.
    inversion H; subst. destruct k as [|k]; simpl; [auto|]. eapply IH. reflexivity.
Qed.

Lemma forward_length key cs cs' fired :
  forward key cs = Done cs' fired -> length cs' = length cs.
Proof.
  intros H. apply forward_flags in H. apply (f_equal (@length _)) in H.
  rewrite !length_map in H. exact H.
Qed.

Lemma kind_handle_down k : kind_handle_input KEY_DOWN k = Ok (k, []).
Proof. destruct k as [t|[its idx]|t a|t]; reflexivity. Qed.

(** The down key changes no widget: [forward] hands it to the selected
    widget, which ignores it. *)
Lemma forward_down cs : forward KEY_DOWN cs = Done cs [].
Proof.
  induction cs as [|[s b k] r IH]; [reflexivity|].
  simpl. rewrite IH. destruct b; [rewrite kind_handle_down|]; reflexivity.
Qed.

Lemma first_selected_at cs i : selected_at cs i -> first_selected cs = Some i.
Proof.
  revert i. induction cs as [|w r IH]; intros i [Hi Hs]; simpl in Hi; [lia|].
  simpl. pose proof (Hs 0%nat ltac:(simpl; lia)) as H0. simpl in H0.
  destruct i as [|i].
  - rewrite H0. reflexivity.
  - rewrite H0. rewrite (IH i); [reflexivity|]. split; [lia|].
    intros k Hk. apply (Hs (S k)). simpl. lia.
Qed.

Lemma first_selected_none cs :
  (forall k, selected (nth k cs dflt) = false) -> first_selected cs = None.
Proof.
  induction cs as [|w r IH]; intros H; [reflexivity|].
  simpl. pose proof (H 0%nat) as H0. simpl in H0. rewrite H0.
  rewrite IH; [reflexivity|]. intros k. apply (H (S k)).
Qed.

Lemma at_offset_nat cs i u :
  selectable (at_offset cs i (Z.of_nat u)) = nth ((i + u) mod length cs) (map selectable cs) false.
Proof.
  unfold at_offset. rewrite <- Nat2Z.inj_add, <- Nat2Z.inj_mod, Nat2Z.id.
  symmetry. apply nth_sel.
Qed.

Lemma at_offset_index (cs : list widget) (i : nat) (v : Z) :
  (0 < length cs)%nat ->
  (Z.to_nat ((Z.of_nat i + v) mod Z.of_nat (length cs)) < length cs)%nat.
Proof.
  intros H. pose proof (Z.mod_pos_bound (Z.of_nat i + v) (Z.of_nat (length cs)) ltac:(lia)).
  apply Nat2Z.inj_lt. rewrite Z2Nat.id by lia. lia.
Qed.

(** *** The [while] loop *)

Lemma seek_first cs i : forall f v,
  (1 <= v)%nat ->
  (exists u, (v <= u < v + f)%nat /\ selectable (at_offset cs i (Z.of_nat u)) = true) ->
  exists w, seek f cs i (Z.of_nat v) = MoveBy (Z.of_nat w) /\ (v <= w < v + f)%nat /\
    selectable (at_offset cs i (Z.of_nat w)) = true /\
    forall u, (v <= u < w)%nat -> selectable (at_offset cs i (Z.of_nat u)) = false.
Proof.
  induction f as [|f IH]; intros v Hv [u [Hu Hsu]]; [lia|].
  simpl. destruct (selectable (at_offset cs i (Z.of_nat v))) eqn:Ev.
  - exists v. repeat split; auto; lia.
  - replace (Z.of_nat v + Z.sgn (Z.of_nat v))%Z with (Z.of_nat (S v))
      by (rewrite Z.sgn_pos by lia; lia).
    destruct (IH (S v) ltac:(lia)) as [w [Hs [Hw [Hsw Hbefore]]]].
    { exists u. split; [|exact Hsu]. destruct (Nat.eq_dec u v); [subst; congruence|lia]. }
    exists w. repeat split; auto; try lia.
    intros u' Hu'. destruct (Nat.eq_dec u' v); [subst; exact Ev|]. apply Hbefore. lia.
Qed.

Lemma find_move_selectable cs i v w :
  find_move cs i v = MoveBy w -> selectable (at_offset cs i w) = true.
Proof.
  unfold find_move. destruct (v =? 0)%Z.
  - destruct (selectable (at_offset cs i v)) eqn:E; intros H; inversion H; subst; auto.
  - generalize v. induction (length cs) as [|f IH]; intros v' H; simpl in H; [discriminate|].
    destruct (selectable (at_offset cs i v')) eqn:E; [inversion H; subst; auto|].
    eapply IH. exact H.
Qed.

(** Deselecting [i] and selecting [j] leaves exactly [j] selected. *)
Lemma select_moved cs i j :
  selected_at cs i -> (j < length cs)%nat ->
  let cs1 := list_set cs i (with_selected (nth i cs dflt) false) in
  selected_at (list_set cs1 j (with_selected (nth j cs1 dflt) true)) j.
Proof.
  intros [Hi Hs] Hj cs1. unfold cs1.
  split; [rewrite !length_list_set; exact Hj|].
  intros k Hk. rewrite !length_list_set in Hk.
  destruct (Nat.eq_dec j k) as [<-|Hjk].
  - rewrite nth_list_set_eq by (rewrite length_list_set; lia).
    rewrite Nat.eqb_refl. reflexivity.
  - rewrite nth_list_set_neq by exact Hjk.
    destruct (Nat.eq_dec i k) as [<-|Hik].
    + rewrite nth_list_set_eq by lia. simpl. symmetry. apply Nat.eqb_neq. auto.
    + rewrite nth_list_set_neq by exact Hik. rewrite (Hs k Hk).
      rewrite (proj2 (Nat.eqb_neq k i)), (proj2 (Nat.eqb_neq k j)); auto.
Qed.

(** *** The invariant of reachable containers *)

Lemma focus_ok_add cs k : focus_ok cs -> focus_ok (add_component cs k).
Proof.
  assert (Hmk : selected (make k) = false) by (destruct k; reflexivity).
  unfold add_component. intros [Hnone|[i [[Hi Hs] Hsel]]].
  - assert (Hex : existsb selected (cs ++ [make k]) = false).
    { apply Bool.not_true_iff_false. intros Hex.
      apply existsb_exists in Hex as [w [Hin Hw]].
      apply In_nth with (d := dflt) in Hin as [m [Hm Hmw]].
      rewrite nth_snoc in Hmw. rewrite length_app in Hm. simpl in Hm.
      destruct (Nat.ltb_spec m (length cs)).
      - subst. rewrite Hnone in Hw. discriminate.
      - rewrite (proj2 (Nat.eqb_eq m (length cs))) in Hmw by lia. congruence. }
    rewrite Hex. destruct (selectable (make k)) eqn:Emk; simpl.
    + right. exists (length cs). repeat split.
      * rewrite length_app. simpl. lia.
      * intros m Hm. rewrite nth_snoc. destruct (Nat.ltb_spec m (length cs)).
        -- rewrite Hnone. symmetry. apply Nat.eqb_neq. lia.
        -- rewrite length_app in Hm. simpl in Hm.
           rewrite (proj2 (Nat.eqb_eq m (length cs))) by lia. reflexivity.
      * rewrite nth_snoc, Nat.ltb_irrefl, Nat.eqb_refl. exact Emk.
    + left. intros m. rewrite nth_snoc.
      destruct (m <? length cs)%nat; [apply Hnone|].
      destruct (m =? length cs)%nat; [exact Hmk|reflexivity].
  - assert (Hex : existsb selected (cs ++ [make k]) = true).
    { apply existsb_exists. exists (nth i cs dflt). split.
      - apply in_or_app. left. apply nth_In. exact Hi.
      - rewrite Hs by exact Hi. apply Nat.eqb_refl. }
    rewrite Hex, andb_false_r. right. exists i. repeat split.
    + rewrite length_app. simpl. lia.
    + intros m Hm. rewrite length_app in Hm. simpl in Hm.
      rewrite nth_snoc. destruct (Nat.ltb_spec m (length cs)); [apply Hs; lia|].
      rewrite (proj2 (Nat.eqb_eq m (length cs))) by lia.
      rewrite Hmk. symmetry. apply Nat.eqb_neq. lia.
    + rewrite app_nth1 by exact Hi. exact Hsel.
Qed.

Lemma focus_ok_forward key cs cs' fired :
  forward key cs = Done cs' fired -> focus_ok cs -> focus_ok cs'.
Proof.
  intros H [Hnone|[i [[Hi Hs] Hsel]]].
  - left. intros k. rewrite (proj2 (forward_nth _ _ _ _ k H)). apply Hnone.
  - right. exists i. split; [split|].
    + rewrite (forward_length _ _ _ _ H). exact Hi.
    + intros k Hk. rewrite (forward_length _ _ _ _ H) in Hk.
      rewrite (proj2 (forward_nth _ _ _ _ k H)). auto.
    + rewrite (proj1 (forward_nth _ _ _ _ i H)). exact Hsel.
Qed.

Lemma focus_ok_key key cs cs' fired :
  handle_input key cs = Done cs' fired -> focus_ok cs -> focus_ok cs'.
Proof.
  unfold handle_input. intros H Hok.
  destruct (key =? NO_KEY)%Z; [inversion H; subst; exact Hok|].
  destruct Hok as [Hnone|[i [Hat Hsel]]].
  - rewrite first_selected_none in H by exact Hnone.
    apply (focus_ok_forward _ _ _ _ H). left. exact Hnone.
  - rewrite (first_selected_at cs i Hat) in H.
    set (cs1 := list_set cs i (with_selected (nth i cs dflt) false)) in H.
    set (v := if (key =? KEY_DOWN)%Z then 1%Z else if (key =? KEY_UP)%Z then (-1)%Z else 0%Z) in H.
    destruct (find_move cs1 i v) as [w| |] eqn:Em; try discriminate.
    apply find_move_selectable in Em.
    assert (Hlen : length cs1 = length cs) by apply length_list_set.
    destruct Hat as [Hi Hs].
    assert (Hj := at_offset_index cs1 i w ltac:(lia)).
    set (j := Z.to_nat ((Z.of_nat i + w) mod Z.of_nat (length cs1))) in H, Hj.
    apply (focus_ok_forward _ _ _ _ H). right. exists j. split.
    + apply select_moved; [split; auto|lia].
    + rewrite nth_list_set_eq by exact Hj. exact Em.
Qed.

Lemma reachable_focus_ok cs : reachable cs -> focus_ok cs.
Proof.
  induction 1 as [|cs k Hr IH|cs key cs' fired Hr IH Hk].
  - left. intros [|k]; reflexivity.
  - apply focus_ok_add. exact IH.
  - exact (focus_ok_key _ _ _ _ Hk IH).
Qed.

(** *** The down key *)

Lemma down_step cs i :
  selected_at cs i -> selectable (nth i cs dflt) = true ->
  exists cs' j, handle_input KEY_DOWN cs = Done cs' [] /\
    map selectable cs' = map selectable cs /\
    selected_at cs' j /\ selectable (nth j cs' dflt) = true /\
    rank (map selectable cs) j = ((rank (map selectable cs) i + 1) mod count_selectable cs)%nat.
Proof.
  intros Hat Hsel. pose proof Hat as [Hi Hs].
  unfold handle_input. rewrite (first_selected_at cs i Hat).
  replace (KEY_DOWN =? NO_KEY)%Z with false by reflexivity.
  replace (KEY_DOWN =? KEY_DOWN)%Z with true by reflexivity.
  set (cs1 := list_set cs i (with_selected (nth i cs dflt) false)).
  assert (Hlen : length cs1 = length cs) by apply length_list_set.
  assert (Hmap1 : map selectable cs1 = map selectable cs) by (apply map_sel_list_set; reflexivity).
  assert (Hoff : forall u, selectable (at_offset cs1 i (Z.of_nat u)) =
                           nth ((i + u) mod length cs) (map selectable cs) false).
  { intros u. rewrite at_offset_nat, Hmap1, Hlen. reflexivity. }
  destruct (seek_first cs1 i (length cs1) 1 ltac:(lia)) as [w [Hseek [Hw [Hsw Hbefore]]]].
  { exists (length cs). split; [lia|]. rewrite Hoff.
    rewrite mod_minus by lia. rewrite Nat.add_sub, nth_sel. exact Hsel. }
  unfold find_move. replace (1 =? 0)%Z with false by reflexivity.
  change (Z.of_nat 1) with 1%Z in Hseek. rewrite Hseek.
  assert (Ej : Z.to_nat ((Z.of_nat i + Z.of_nat w) mod Z.of_nat (length cs1)) =
               ((i + w) mod length cs)%nat).
  { rewrite <- Nat2Z.inj_add, <- Nat2Z.inj_mod, Nat2Z.id, Hlen. reflexivity. }
  rewrite Ej. rewrite forward_down.
  set (j := ((i + w) mod length cs)%nat).
  assert (Hj : (j < length cs)%nat) by (apply Nat.mod_upper_bound; lia).
  eexists _, j. split; [reflexivity|]. split; [|split; [|split]].
  - rewrite map_sel_list_set by reflexivity. exact Hmap1.
  - apply select_moved; auto.
  - rewrite nth_list_set_eq by lia. simpl.
    unfold at_offset in Hsw. rewrite Ej in Hsw. exact Hsw.
  - rewrite count_rank, length_map. unfold j.
    pose proof (rank_next (map selectable cs) i w) as R. rewrite length_map in R.
    apply R; try lia.
    + rewrite nth_sel. exact Hsel.
    + rewrite <- Hoff. exact Hsw.
    + intros u Hu. rewrite <- Hoff. apply Hbefore. lia.
Qed.

Lemma rank_lt_count cs i :
  selected_at cs i -> selectable (nth i cs dflt) = true ->
  (rank (map selectable cs) i < count_selectable cs)%nat.
Proof.
  intros [Hi _] Hsel. rewrite count_rank. apply rank_lt.
  - rewrite nth_sel. exact Hsel.
  - rewrite length_map. exact Hi.
Qed.

Lemma press_down m : forall cs i,
  selected_at cs i -> selectable (nth i cs dflt) = true ->
  exists cs' j, press m KEY_DOWN cs = Done cs' [] /\
    map selectable cs' = map selectable cs /\
    selected_at cs' j /\ selectable (nth j cs' dflt) = true /\
    rank (map selectable cs) j = ((rank (map selectable cs) i + m) mod count_selectable cs)%nat.
Proof.
  induction m as [|m IH]; intros cs i Hat Hsel.
  - exists cs, i. repeat split; auto; try apply Hat.
    rewrite Nat.add_0_r, mod_small_eq; auto. apply rank_lt_count; auto.
  - destruct (down_step cs i Hat Hsel) as [cs1 [j1 [Hd [Hm1 [Hat1 [Hsel1 Hr1]]]]]].
    destruct (IH cs1 j1 Hat1 Hsel1) as [cs' [j [Hp [Hm [Hat' [Hsel' Hr]]]]]].
    exists cs', j. simpl. rewrite Hd, Hp. split; [reflexivity|].
    rewrite Hm, Hm1. repeat split; auto; try apply Hat'.
    assert (HN : count_selectable cs1 = count_selectable cs)
      by (rewrite !count_rank, Hm1; reflexivity).
    rewrite Hm1, HN, Hr1 in Hr. rewrite Hr.
    rewrite Nat.Div0.add_mod_idemp_l. f_equal. lia.
Qed.

End ContainerProofs.

(** * The claims *)
Section Claims.
Import ActivityFile Scheduler.

(** C2 (amended): one round of [adjust_priorities] reads one plan (most
    recent first) and then adds 1 to exactly the activities whose name is
    not in [found_activities] as it stands after that plan: the names
    found in this plan or in any more recent one, which only grows from
    round to round. An activity found in a more recent plan is therefore
    not incremented again in later rounds. *)
Theorem adjust_round_bumps_not_found_so_far :
  forall (contents : string) (h : heap) (locs : list loc) (all found : list string)
         (h' : heap) (all' found' : list string),
  NoDup locs -> (forall l, In l locs -> (l < length h)%nat) ->
  adjust_round contents h locs all found = Ok (h', all', found') ->
  (exists extra, found' = found ++ extra)
  /\ forall l, In l locs -> get h' l = bumped found' (get h l).
Proof.
  intros contents h locs all found h' all' found' Hnd Hlen H.
  unfold adjust_round in H.
  destruct (scan_lines (lines contents) all found) as [[a f]|e] eqn:E;
    simpl in H; [|discriminate].
  inversion H; subst. split.
  - exact (scan_lines_found _ _ _ _ _ E).
  - intros l Hl. apply get_bump_inside; assumption.
Qed.

(** C5: when the flat candidate pool is empty, [get_random_activity]
    raises IndexError (from [random.choice]) and returns no pick. *)
Theorem empty_pool_raises :
  forall (randbelow : nat -> nat) (fs : file_store)
         (dir : option (list (string * string))) (h : heap) (acts : list Activity)
         (h2 : heap) (locs : list loc),
  read_activities fs "activities.txt" = Ok acts ->
  adjust_priorities dir (h ++ acts) (seq (length h) (length acts)) = (h2, Ok locs) ->
  pool h2 locs = [] ->
  get_random_activity randbelow fs dir h = (h2, Raise IndexError).
Proof.
  intros randbelow fs dir h acts h2 locs Hr Ha Hp.
  unfold get_random_activity. rewrite Hr. unfold alloc. rewrite Ha, Hp. reflexivity.
Qed.

(** C9 (amended): writing a list of activities and reading the file back
    gives the same list, whatever the file held before, for names with
    no line break (\n or \r) that do not begin with whitespace; names
    may contain commas. *)
Theorem activities_write_read_roundtrip :
  forall (fs : file_store) (filename : string) (acts : list Activity),
  Forall (fun a => name_ok (choice a) = true) acts ->
  read_activities (write_activities fs filename acts) filename = Ok acts.
Proof.
  intros fs filename acts H. unfold read_activities, write_activities, write_file.
  rewrite String.eqb_refl. apply parse_format_contents, H.
Qed.

Lemma adjust_round_bumps_not_found_so_far_witness :
  (exists extra, ["X"%string] = [] ++ extra)
  /\ forall l, In l [0; 1]%nat ->
     get [mkActivity "X" 1; mkActivity "Y" 2] l
     = bumped ["X"%string] (get [mkActivity "X" 1; mkActivity "Y" 1] l).
Proof.
  apply (adjust_round_bumps_not_found_so_far ("Monday: X" ++ String nl EmptyString)%string
           [mkActivity "X" 1; mkActivity "Y" 1] [0; 1]%nat ["X"; "Y"]%string []
           [mkActivity "X" 1; mkActivity "Y" 2] ["Y"%string] ["X"%string]).
  - constructor; [simpl; intros [H|H]; [discriminate|exact H]|].
    constructor; [intros []|constructor].
  - intros l Hl. simpl in Hl |- *. lia.
  - vm_compute. reflexivity.
Defined.

(** C2 fails as stated: with plans [X] (most recent) then [Y], the second
    round finds only Y in its plan, yet X is not incremented, because X is
    still in [found_activities] from the first round. *)
Lemma adjust_round_fresh_found_cex :
  let dir := Some [("week_plan_2024-01-01.txt", "Monday: Y" ++ String nl EmptyString);
                   ("week_plan_2024-01-08.txt", "Monday: X" ++ String nl EmptyString)]%string in
  let h0 := [mkActivity "X" 1; mkActivity "Y" 1] in
  let h1 := [mkActivity "X" 1; mkActivity "Y" 2] in
  adjust_priorities dir h0 [0; 1]%nat = (h1, Ok [0; 1]%nat)
  /\ adjust_round ("Monday: Y" ++ String nl EmptyString)%string h1 [0; 1]%nat
       ["Y"%string] ["X"%string] = Ok (h1, [], ["X"; "Y"]%string)
  /\ ~ (forall l, In l [0; 1]%nat ->
         priority (get h1 l) = priority (get h1 l)
           + if mem (choice (get h1 l)) (skipn 1 ["X"; "Y"]%string) then 0 else 1).
Proof.
  intros dir h0 h1. split; [vm_compute; reflexivity|]. split; [vm_compute; reflexivity|].
  intros H. specialize (H 0%nat (or_introl eq_refl)). vm_compute in H. discriminate.
Qed.

(** C3 fails as stated: "X" is stored with priority 0, the only past plan
    names "Y", the history bump raises X to 1 and the draw returns "X". *)
Lemma stored_zero_priority_drawn_cex :
  let fs := fun f => if String.eqb f "activities.txt"
                     then Some ("X,0" ++ String nl ("Y,1" ++ String nl EmptyString))%string
                     else None in
  let dir := Some [("week_plan_2024-01-01.txt", "Monday: Y" ++ String nl EmptyString)%string] in
  read_activities fs "activities.txt" = Ok [mkActivity "X" 0; mkActivity "Y" 1]
  /\ get_random_activity (fun _ => 0%nat) fs dir []
     = ([mkActivity "X" 1; mkActivity "Y" 1], Ok "X"%string).
Proof. split; vm_compute; reflexivity. Qed.

(** C4 fails as stated: [adjust_priorities] changes the priority of a
    record of the list it is given. *)
Lemma adjust_priorities_mutates_caller_cex :
  let dir := Some [("week_plan_2024-01-01.txt", "Monday: Y" ++ String nl EmptyString)%string] in
  let h := [mkActivity "X" 1] in
  adjust_priorities dir h [0%nat] = ([mkActivity "X" 2], Ok [0%nat])
  /\ priority (get (fst (adjust_priorities dir h [0%nat])) 0%nat) <> priority (get h 0%nat).
Proof. split; vm_compute; [reflexivity | discriminate]. Qed.

Lemma empty_pool_raises_witness :
  let fs := fun f => if String.eqb f "activities.txt"
                     then Some ("X,0" ++ String nl EmptyString)%string else None in
  get_random_activity (fun _ => 0%nat) fs (Some []) [] = ([mkActivity "X" 0], Raise IndexError).
Proof.
  intros fs. apply (empty_pool_raises (fun _ => 0%nat) fs (Some []) [] [mkActivity "X" 0]
                      [mkActivity "X" 0] [0%nat]); vm_compute; reflexivity.
Defined.

Lemma activities_write_read_roundtrip_witness :
  read_activities (write_activities (fun _ => None) "activities.txt"
                     [mkActivity "Board games, cards" 3; mkActivity "Run" 0])
    "activities.txt"
  = Ok [mkActivity "Board games, cards" 3; mkActivity "Run" 0].
Proof.
  apply activities_write_read_roundtrip.
  constructor; [vm_compute; reflexivity|]. constructor; [vm_compute; reflexivity|].
  constructor.
Defined.

(** C9 fails as stated: a name with a leading space and no newline comes
    back without the space. *)
Lemma roundtrip_leading_space_cex :
  let acts := [mkActivity " a" 1] in
  forallb_chars not_line_break " a" = true
  /\ read_activities (write_activities (fun _ => None) "activities.txt" acts) "activities.txt"
     = Ok [mkActivity "a" 1]
  /\ read_activities (write_activities (fun _ => None) "activities.txt" acts) "activities.txt"
     <> Ok acts.
Proof. split; [|split]; vm_compute; [reflexivity | reflexivity | discriminate]. Qed.

End Claims.

Section MenuClaims.
Import MenuList Keys.

(** C6: [scroll] follows the spec's rule with viewportHeight = rows minus
    [menu_title_height] (its test at one row earlier gives the same
    offset), and, for a viewport of at least one row, every sequence of
    keys keeps [offset <= selected < offset + viewportHeight]. *)
Theorem menu_scroll_rule_and_window :
  (forall (F : Type) (height : Z) (m : menu F) (scr sel : Z),
     fst (scroll F height m scr sel) = scroll_spec (height - menu_title_height m) scr sel)
  /\ (forall (F : Type) (height : Z) (keys : list Z) (m : menu F),
     1 <= height - menu_title_height m ->
     offset m <= selected m < offset m + (height - menu_title_height m) ->
     let m' := run F height keys m in
     offset m' <= selected m' < offset m' + (height - menu_title_height m')).
Proof.
  split; [exact scroll_matches_spec|].
  intros F height keys. induction keys as [|k ks IH]; intros m Hv Hinv; [exact Hinv|].
  simpl. apply IH.
  - rewrite handle_input_title. exact Hv.
  - apply handle_input_window; assumption.
Qed.

Lemma menu_scroll_rule_and_window_witness :
  let m := mkMenu ["a"; "b"; "c"; "d"; "e"; "Back"]%string [0; 1; 2; 3; 4; 5]%nat 0 0 2 in
  let m' := run nat 5 [KEY_UP; KEY_UP; KEY_PPAGE; KEY_END; KEY_HOME; KEY_DOWN] m in
  offset m' <= selected m' < offset m' + (5 - menu_title_height m').
Proof.
  intros m. apply (proj2 menu_scroll_rule_and_window); simpl; lia.
Defined.

(** C7: for a non-empty item list, [handle_input] keeps
    [0 <= selected < len(items)]; "up" at 0 wraps to the last item,
    "down" at the last item wraps to 0, and page up / page down move by
    10 clamped to [0, len(items) - 1]. *)
Theorem menu_selection_in_range :
  forall (F : Type) (height key : Z) (m : menu F),
  let n := Z.of_nat (length (items m)) in
  1 <= n -> 0 <= selected m < n ->
  let s' := selected (fst (handle_input F height key m)) in
  0 <= s' < n
  /\ (key = KEY_UP -> selected m = 0 -> s' = n - 1)
  /\ (key = KEY_DOWN -> selected m = n - 1 -> s' = 0)
  /\ (key = KEY_PPAGE -> s' = Z.max 0 (selected m - 10))
  /\ (key = KEY_NPAGE -> s' = Z.min (n - 1) (selected m + 10)).
Proof.
  intros F height key m n Hn Hs s'.
  split; [|split; [|split; [|split]]].
  - subst s'. destruct (handle_input_cases F height key m) as [H|H]; rewrite H;
      [exact Hs | apply wrap_range, Hn].
  - intros -> H0. subst s'. rewrite handle_input_not_esc by discriminate. simpl.
    fold n. rewrite H0. unfold vinput, wrap. cbn. destruct (n - 1 <? -1) eqn:E; lia.
  - intros -> H0. subst s'. rewrite handle_input_not_esc by discriminate. simpl.
    fold n. rewrite H0. unfold vinput, wrap. cbn.
    replace (n - 1 + 1) with n by lia.
    destruct (n <? 0) eqn:E1; [lia|]. destruct (n - 1 <? n) eqn:E2; [reflexivity|].
    rewrite Z.ltb_ge in E2. lia.
  - intros ->. subst s'. rewrite handle_input_not_esc by discriminate. simpl.
    fold n. unfold vinput, wrap, clamp. cbn.
    destruct (_ <? 0) eqn:E1; [rewrite Z.ltb_lt in E1; lia|].
    destruct (n - 1 <? _) eqn:E2; [rewrite Z.ltb_lt in E2; lia|]. lia.
  - intros ->. subst s'. rewrite handle_input_not_esc by discriminate. simpl.
    fold n. unfold vinput, wrap, clamp. cbn.
    destruct (_ <? 0) eqn:E1; [rewrite Z.ltb_lt in E1; lia|].
    destruct (n - 1 <? _) eqn:E2; [rewrite Z.ltb_lt in E2; lia|]. lia.
Qed.

Lemma menu_selection_in_range_witness :
  let m := mkMenu ["a"; "b"; "c"; "Back"]%string [0; 1; 2; 3]%nat 0 0 2 in
  let s' := selected (fst (handle_input nat 10 KEY_UP m)) in
  0 <= s' < 4
  /\ (KEY_UP = KEY_UP -> selected m = 0 -> s' = 4 - 1)
  /\ (KEY_UP = KEY_DOWN -> selected m = 4 - 1 -> s' = 0)
  /\ (KEY_UP = KEY_PPAGE -> s' = Z.max 0 (selected m - 10))
  /\ (KEY_UP = KEY_NPAGE -> s' = Z.min (4 - 1) (selected m + 10)).
Proof.
  intros m. apply (menu_selection_in_range nat 10 KEY_UP m); simpl; lia.
Defined.

End MenuClaims.

Section WidgetClaims.
Import Widgets Keys.

(** C10: for a non-empty item list, [Combobox.handle_input] keeps
    [0 <= index < len(items)]; left at index 0 and right at the last
    index change nothing (no wrap), and every other key leaves the
    combobox unchanged. *)
Theorem combobox_index_in_range :
  forall (key : Z) (cb : combobox),
  let n := Z.of_nat (length (cb_items cb)) in
  1 <= n -> 0 <= index cb < n ->
  let cb' := combobox_handle_input key cb in
  0 <= index cb' < n
  /\ (key = KEY_LEFT -> index cb = 0 -> cb' = cb)
  /\ (key = KEY_RIGHT -> index cb = n - 1 -> cb' = cb)
  /\ (key <> KEY_LEFT -> key <> KEY_RIGHT -> cb' = cb).
Proof.
  intros key [items idx] n Hn Hi cb'. simpl in *. subst cb'.
  unfold combobox_handle_input. simpl. fold n.
  split; [|split; [|split]].
  - destruct (key =? NO_KEY); simpl; [lia|].
    destruct (key =? KEY_LEFT); simpl; [lia|].
    destruct (key =? KEY_RIGHT); simpl; lia.
  - intros -> H0. cbn. subst idx. reflexivity.
  - intros -> H0. cbn. f_equal. lia.
  - intros H1 H2. apply Z.eqb_neq in H1, H2. rewrite H1, H2.
    destruct (key =? NO_KEY); reflexivity.
Qed.

Lemma combobox_index_in_range_witness :
  let cb := mkCombobox ["Ignore"; "Low"; "Medium"]%string 2 in
  let cb' := combobox_handle_input KEY_RIGHT cb in
  0 <= index cb' < 3
  /\ (KEY_RIGHT = KEY_LEFT -> index cb = 0 -> cb' = cb)
  /\ (KEY_RIGHT = KEY_RIGHT -> index cb = 3 - 1 -> cb' = cb)
  /\ (KEY_RIGHT <> KEY_LEFT -> KEY_RIGHT <> KEY_RIGHT -> cb' = cb).
Proof.
  intros cb. apply (combobox_index_in_range KEY_RIGHT cb); simpl; lia.
Defined.

End WidgetClaims.

Section ContainerClaims.
Import Keys Widgets.

(** C8: in every container the program builds, with at least one
    selectable widget and widget [i] the one selected, sending the down
    key [N] times, [N] the number of selectable widgets, selects widget
    [i] again and no other widget; and after [m] presses with
    [0 < m < N] the selected widget is another one, so the down key
    cycles through the selectable widgets with period [N]. *)
Theorem container_focus_cycle (cs : list widget) (i : nat) :
  reachable cs -> (0 < count_selectable cs)%nat -> selected_at cs i ->
  (exists cs', press (count_selectable cs) KEY_DOWN cs = Done cs' [] /\ selected_at cs' i) /\
  (forall m, (0 < m < count_selectable cs)%nat ->
     exists cs' j, press m KEY_DOWN cs = Done cs' [] /\ selected_at cs' j /\ j <> i).
Proof.
  intros Hr HN Hat.
  assert (Hsel : selectable (nth i cs dflt) = true).
  { pose proof Hat as [Hi Hs]. pose proof (Hs i Hi) as Hii. rewrite Nat.eqb_refl in Hii.
    destruct (reachable_focus_ok cs Hr) as [Hnone|[i' [[Hi' Hs'] Hsel']]].
    - rewrite Hnone in Hii. discriminate.
    - rewrite Hs' in Hii by exact Hi. apply Nat.eqb_eq in Hii. subst. exact Hsel'. }
  pose proof (rank_lt_count cs i Hat Hsel) as Hlt.
  split.
  - destruct (press_down (count_selectable cs) cs i Hat Hsel)
      as [cs' [j [Hp [Hm [Hat' [Hselj Hrank]]]]]].
    exists cs'. split; [exact Hp|].
    rewrite mod_minus in Hrank by lia. rewrite Nat.add_sub in Hrank.
    replace i with j; [exact Hat'|].
    apply (rank_inj (map selectable cs)); auto.
    + rewrite <- Hm, nth_sel. exact Hselj.
    + rewrite nth_sel. exact Hsel.
  - intros m Hm0.
    destruct (press_down m cs i Hat Hsel) as [cs' [j [Hp [Hm [Hat' [Hselj Hrank]]]]]].
    exists cs', j. split; [exact Hp|]. split; [exact Hat'|].
    intros ->. destruct (Nat.ltb_spec (rank (map selectable cs) i + m) (count_selectable cs)).
    + rewrite mod_small_eq in Hrank by assumption. lia.
    + rewrite mod_minus in Hrank by lia. lia.
Qed.

(** The container of the main screen: a label and four buttons; the
    first button is selected and the down key cycles through the four. *)
Lemma container_focus_cycle_witness :
  let cs := add_component (add_component (add_component (add_component
              (add_component [] (Label "Welcome to Week Planner!"%string))
              (Button "Week Planner"%string 0)) (Button "Random Activity"%string 1))
              (Button "Config"%string 2)) (Button "Quit"%string 3) in
  (exists cs', press (count_selectable cs) KEY_DOWN cs = Done cs' [] /\ selected_at cs' 1) /\
  (forall m, (0 < m < count_selectable cs)%nat ->
     exists cs' j, press m KEY_DOWN cs = Done cs' [] /\ selected_at cs' j /\ j <> 1%nat).
Proof.
  intros cs. apply (container_focus_cycle cs 1).
  - repeat apply reach_add. apply reach_nil.
  - vm_compute. lia.
  - split; [vm_compute; lia|].
    intros k Hk. vm_compute in Hk.
    destruct k as [|[|[|[|[|k]]]]]; try reflexivity. lia.
Defined.

End ContainerClaims.

Section NavClaims.
Import Nav.

(** C1 fails on the code: a forward transition runs [on_regress] too.
    The button action constructs the new screen, whose [__init__] pushes
    it onto [state_history], before [advance_state] records it; the next
    [update] then finds [state_history[-1] == self.next_state] and runs
    [on_regress] of the freshly constructed screen. *)
Theorem forward_transition_runs_on_regress :
  forall (w : world) (self : nat),
  (self < length (next_states w))%nat ->
  let '(w1, s) := advance_new w self in
  exists w2, update w1 self = Ok (Some s, w2) /\ regressed w2 = regressed w ++ [s].
Proof.
  intros w self Hself. unfold advance_new, construct, advance_state, update, next_of, set_next.
  simpl. rewrite nth_list_set_eq by (rewrite length_app; simpl; lia).
  rewrite rev_app_distr. simpl. rewrite Nat.eqb_refl.
  eexists. split; reflexivity.
Qed.

(** From the main screen (screen 0, alone on [state_history]), the
    "Week Planner" button creates screen 1 and the next [update] of
    screen 0 runs [on_regress] of screen 1. *)
Lemma forward_transition_runs_on_regress_witness :
  let w0 := fst (construct (mkWorld [] [] [])) in
  let '(w1, s) := advance_new w0 0 in
  exists w2, update w1 0 = Ok (Some s, w2) /\ regressed w2 = regressed w0 ++ [s].
Proof.
  intros w0. apply (forward_transition_runs_on_regress w0 0). simpl. lia.
Defined.

End NavClaims.

(** * Further properties of the code *)

(** ** Names read from the activity file *)
Section ReadNames.
Import ActivityFile ActivityScreens.

Lemma rstrip_app_ws s t : rstrip t = EmptyString -> rstrip (s ++ t) = rstrip s.
Proof. intros H. induction s as [|c r IH]; simpl; [exact H|]. rewrite IH. reflexivity. Qed.

Lemma forallb_rstrip P s : forallb_chars P s = true -> forallb_chars P (rstrip s) = true.
Proof.
  induction s as [|c r IH]; simpl; [auto|]. intros H. apply andb_prop in H as [Hc Hr].
  destruct (String.eqb (rstrip r) EmptyString && isspace c); simpl; [reflexivity|].
  rewrite Hc, IH by exact Hr. reflexivity.
Qed.

Lemma forallb_lstrip P s : forallb_chars P s = true -> forallb_chars P (lstrip s) = true.
Proof.
  induction s as [|c r IH]; simpl; [auto|]. intros H. apply andb_prop in H as [Hc Hr].
  destruct (isspace c); [apply IH, Hr|]. simpl. rewrite Hc, Hr. reflexivity.
Qed.

Lemma lstrip_first s c r : lstrip s = String c r -> isspace c = false.
Proof.
  induction s as [|c0 r0 IH]; simpl; [discriminate|].
  destruct (isspace c0) eqn:E; [exact IH|]. intros H. injection H as -> _. exact E.
Qed.

Lemma rstrip_first c r d u : rstrip (String c r) = String d u -> c = d.
Proof.
  simpl. destruct (String.eqb (rstrip r) EmptyString && isspace c); [discriminate|].
  intros H. injection H as -> _. reflexivity.
Qed.

Lemma strip_first l c u : strip l = String c u -> isspace c = false.
Proof.
  unfold strip. destruct (lstrip l) as [|c0 r0] eqn:E; simpl; [discriminate|].
  intros H. apply rstrip_first in H. subst. exact (lstrip_first l c r0 E).
Qed.

Lemma lstrip_app s t :
  lstrip (s ++ t) = match lstrip s with EmptyString => lstrip t | u => (u ++ t)%string end.
Proof.
  induction s as [|c r IH]; simpl; [reflexivity|].
  destruct (isspace c); [exact IH|reflexivity].
Qed.

(** The newline that ends a line makes no difference to [strip]. *)
Lemma strip_nl body : strip (body ++ String nl EmptyString) = strip body.
Proof.
  unfold strip. rewrite lstrip_app. destruct (lstrip body) as [|c r].
  - reflexivity.
  - apply rstrip_app_ws. reflexivity.
Qed.

Lemma lines_shaped_n n : forall s, (String.length s <= n)%nat -> Forall line_shaped (lines s).
Proof.
  induction n as [|n IH]; intros s Hs.
  - destruct s; [constructor | simpl in Hs; lia].
  - destruct s as [|c r]; [constructor|]. simpl in Hs.
    assert (Hnl : line_shaped (String nl EmptyString))
      by (exists EmptyString; split; [reflexivity | left; reflexivity]).
    simpl. destruct (Ascii.eqb c nl) eqn:Enl; [constructor; auto; apply IH; lia|].
    destruct (Ascii.eqb c cr) eqn:Ecr.
    + destruct r as [|c' r']; [constructor; auto|].
      destruct (Ascii.eqb c' nl); constructor; auto; apply IH; simpl in *; lia.
    + assert (Hc : not_line_break c = true)
        by (unfold not_line_break; rewrite Enl, Ecr; reflexivity).
      pose proof (IH r ltac:(lia)) as Hr.
      destruct (lines r) as [|l ls].
      * constructor; [|constructor]. exists (String c EmptyString).
        split; [simpl; rewrite Hc; reflexivity | right; reflexivity].
      * inversion Hr as [|x y [body [Hb Hl]] Hls]; subst. constructor; [|exact Hls].
        exists (String c body). split; [simpl; rewrite Hc, Hb; reflexivity|].
        destruct Hl as [->| ->]; [left|right]; reflexivity.
Qed.

Lemma lines_shaped s : Forall line_shaped (lines s).
Proof. apply (lines_shaped_n (String.length s)). lia. Qed.

Lemma split_pieces P sep t :
  forallb_chars P t = true -> Forall (fun x => forallb_chars P x = true) (split sep t).
Proof.
  induction t as [|c r IH]; simpl; intros H; [constructor; auto; constructor|].
  apply andb_prop in H as [Hc Hr]. specialize (IH Hr).
  destruct (Ascii.eqb c sep); [constructor; auto|].
  destruct (split sep r) as [|p ps]; [constructor; [simpl; rewrite Hc; reflexivity | constructor]|].
  inversion IH; subst. constructor; auto. simpl. rewrite Hc. assumption.
Qed.

Lemma join_chars P sep l :
  P sep = true -> Forall (fun x => forallb_chars P x = true) l ->
  forallb_chars P (join sep l) = true.
Proof.
  intros Hsep. induction 1 as [|x rest Hx Hrest IH]; [reflexivity|].
  simpl. destruct rest; [exact Hx|].
  rewrite forallb_chars_app, Hx. simpl. rewrite Hsep. exact IH.
Qed.

Lemma Forall_removelast {A} (Q : A -> Prop) l : Forall Q l -> Forall Q (removelast l).
Proof.
  induction 1 as [|x rest Hx Hrest IH]; [constructor|].
  simpl. destruct rest; [constructor|]. constructor; assumption.
Qed.

(** [sep.join(l[:-1])] is a prefix of [sep.join(l)]. *)
Lemma join_removelast_prefix sep l :
  exists rest, join sep l = (join sep (removelast l) ++ rest)%string.
Proof.
  induction l as [|x [|y ys] IH]; simpl.
  - exists EmptyString. reflexivity.
  - exists x. reflexivity.
  - destruct IH as [rest Hr]. simpl in Hr.
    destruct ys as [|z zs].
    + exists (String sep y). reflexivity.
    + change (join sep (y :: z :: zs)) with (join sep (y :: z :: zs)) in *.
      exists rest. rewrite Hr.
      destruct (removelast (y :: z :: zs)) as [|q qs] eqn:E.
      * simpl in E. destruct zs; discriminate.
      * simpl. rewrite str_app_assoc. reflexivity.
Qed.

Lemma parse_line_name_ok l a :
  line_shaped l -> parse_line l = Ok a -> name_ok (choice a) = true.
Proof.
  intros [body [Hb Hl]] Hp. unfold parse_line in Hp.
  destruct (last_item _) as [p|e]; simpl in Hp; [|discriminate].
  destruct (int p) as [prio|e]; simpl in Hp; [|discriminate].
  injection Hp as <-. simpl.
  set (t := strip l).
  assert (Ht : forallb_chars not_line_break t = true).
  { unfold t. destruct Hl as [-> | ->]; [rewrite strip_nl|];
      apply forallb_rstrip, forallb_lstrip, Hb. }
  unfold name_ok. rewrite join_chars; [| reflexivity |].
  - simpl. destruct (join ","%char (removelast (split ","%char t))) as [|c u] eqn:E;
      [reflexivity|].
    destruct (join_removelast_prefix ","%char (split ","%char t)) as [rest Hr].
    rewrite join_split, E in Hr. simpl in Hr.
    rewrite (strip_first l c (u ++ rest)) by exact Hr. reflexivity.
  - apply Forall_removelast, split_pieces, Ht.
Qed.

Lemma parse_lines_names_ok ls acts :
  Forall line_shaped ls -> parse_lines ls = Ok acts ->
  Forall (fun a => name_ok (choice a) = true) acts.
Proof.
  intros Hls. revert acts. induction Hls as [|l ls Hl Hls IH]; intros acts H; simpl in H.
  - inversion H. constructor.
  - destruct (parse_line l) as [a|e] eqn:E; simpl in H; [|discriminate].
    destruct (parse_lines ls) as [acts'|e]; simpl in H; [|discriminate].
    injection H as <-. constructor; [exact (parse_line_name_ok l a Hl E) | exact (IH _ eq_refl)].
Qed.

(** Every name [read_activities] returns can be written back unchanged. *)
Lemma read_names_ok fs filename acts :
  read_activities fs filename = Ok acts ->
  Forall (fun a => name_ok (choice a) = true) acts.
Proof.
  unfold read_activities. destruct (fs filename) as [c|]; [|discriminate].
  apply parse_lines_names_ok, lines_shaped.
Qed.

Lemma int_error p e : int p = Raise e -> e = ValueError.
Proof.
  unfold int. cbv zeta.
  destruct (match strip p with EmptyString => None | String _ _ => _ end : option Z);
    intros H; inversion H; reflexivity.
Qed.

Lemma parse_line_error l e : parse_line l = Raise e -> e = ValueError.
Proof.
  unfold parse_line. unfold last_item at 1.
  destruct (rev (split ","%char (strip l))) as [|p ps] eqn:E.
  - apply (f_equal (@rev string)) in E. rewrite rev_involutive in E.
    exfalso. exact (split_nonempty _ _ E).
  - simpl. destruct (int p) eqn:Ei; simpl; intros H; inversion H; subst.
    exact (int_error p e Ei).
Qed.

Lemma parse_line_blank l : strip l = EmptyString -> parse_line l = Raise ValueError.
Proof. intros H. unfold parse_line. rewrite H. reflexivity. Qed.

Lemma parse_lines_result ls :
  (exists acts, parse_lines ls = Ok acts /\ length acts = length ls)
  \/ parse_lines ls = Raise ValueError.
Proof.
  induction ls as [|l ls IH]; simpl; [left; exists []; auto|].
  destruct (parse_line l) as [a|e] eqn:E; simpl.
  - destruct IH as [[acts [-> Hlen]] | ->]; simpl; [left | right; reflexivity].
    exists (a :: acts). simpl. auto.
  - right. apply parse_line_error in E. subst. reflexivity.
Qed.

Lemma parse_lines_blank ls l :
  In l ls -> strip l = EmptyString -> parse_lines ls = Raise ValueError.
Proof.
  intros Hin Hb. induction ls as [|l0 ls IH]; [destruct Hin|]. simpl.
  destruct Hin as [<-|Hin].
  - rewrite parse_line_blank by exact Hb. reflexivity.
  - destruct (parse_line l0) as [a|e] eqn:E; simpl.
    + rewrite IH by exact Hin. reflexivity.
    + apply parse_line_error in E. subst. reflexivity.
Qed.

End ReadNames.

(** ** Reading, creating, saving and deleting activities *)
Section ActivityFileExtras.
Import ActivityFile ActivityScreens.

Lemma read_after_write fs filename acts :
  Forall (fun a => name_ok (choice a) = true) acts ->
  read_activities (write_activities fs filename acts) filename = Ok acts.
Proof.
  intros H. unfold read_activities, write_activities, write_file.
  rewrite String.eqb_refl. apply parse_format_contents, H.
Qed.

Lemma set_first_priority_spec name p acts :
  (exists pre a post, acts = pre ++ a :: post /\ choice a = name
     /\ Forall (fun b => choice b <> name) pre
     /\ set_first_priority name p acts = pre ++ mkActivity name p :: post)
  \/ (Forall (fun b => choice b <> name) acts /\ set_first_priority name p acts = acts).
Proof.
  induction acts as [|b r IH]; simpl; [right; auto|].
  destruct (String.eqb (choice b) name) eqn:E.
  - apply String.eqb_eq in E. left. exists [], b, r. subst. auto.
  - apply String.eqb_neq in E. destruct IH as [[pre [a [post [-> [Ha [Hpre ->]]]]]] | [Hr ->]].
    + left. exists (b :: pre), a, post. repeat split; auto.
    + right. auto.
Qed.

Lemma remove_first_named_spec name acts :
  (exists pre a post, acts = pre ++ a :: post /\ choice a = name
     /\ Forall (fun b => choice b <> name) pre
     /\ remove_first_named name acts = pre ++ post)
  \/ (Forall (fun b => choice b <> name) acts /\ remove_first_named name acts = acts).
Proof.
  induction acts as [|b r IH]; simpl; [right; auto|].
  destruct (String.eqb (choice b) name) eqn:E.
  - apply String.eqb_eq in E. left. exists [], b, r. auto.
  - apply String.eqb_neq in E. destruct IH as [[pre [a [post [-> [Ha [Hpre ->]]]]]] | [Hr ->]].
    + left. exists (b :: pre), a, post. repeat split; auto.
    + right. auto.
Qed.

Lemma set_first_priority_names_ok name p acts :
  Forall (fun a => name_ok (choice a) = true) acts ->
  Forall (fun a => name_ok (choice a) = true) (set_first_priority name p acts).
Proof.
  induction 1 as [|b r Hb Hr IH]; simpl; [constructor|].
  destruct (String.eqb (choice b) name); constructor; auto.
Qed.

Lemma remove_first_named_names_ok name acts :
  Forall (fun a => name_ok (choice a) = true) acts ->
  Forall (fun a => name_ok (choice a) = true) (remove_first_named name acts).
Proof.
  induction 1 as [|b r Hb Hr IH]; simpl; [constructor|].
  destruct (String.eqb (choice b) name); auto.
Qed.

End ActivityFileExtras.

Section ActivityExtras.
Import ActivityFile ActivityScreens.

(** Reading a file, writing what was read back to it and reading again
    gives the same activities: whatever the file held, every name
    [read_activities] returns survives [write_activities]. *)
Theorem read_write_read_stable (fs : file_store) (filename : string) (acts : list Activity) :
  read_activities fs filename = Ok acts ->
  read_activities (write_activities fs filename acts) filename = Ok acts.
Proof.
  intros H. apply read_after_write. exact (read_names_ok fs filename acts H).
Qed.

Lemma read_write_read_stable_witness :
  read_activities (write_file (fun _ => None) "activities.txt"%string
                     " Run , 3
Read,-1"%string) "activities.txt"%string
    = Ok [mkActivity "Run "%string 3; mkActivity "Read"%string (-1)]
  /\ read_activities (write_activities (write_file (fun _ => None) "activities.txt"%string
                     " Run , 3
Read,-1"%string) "activities.txt"%string [mkActivity "Run "%string 3; mkActivity "Read"%string (-1)])
       "activities.txt"%string
     = Ok [mkActivity "Run "%string 3; mkActivity "Read"%string (-1)].
Proof.
  assert (H : read_activities (write_file (fun _ => None) "activities.txt"%string
                     " Run , 3
Read,-1"%string) "activities.txt"%string
    = Ok [mkActivity "Run "%string 3; mkActivity "Read"%string (-1)]) by (vm_compute; reflexivity).
  split; [exact H | apply read_write_read_stable; exact H].
Defined.

(** Reading an existing file either succeeds with one activity per line
    of the file (universal newlines) or raises ValueError; no other
    error escapes. *)
Theorem read_activities_outcomes (fs : file_store) (filename contents : string) :
  fs filename = Some contents ->
  (exists acts, read_activities fs filename = Ok acts
                /\ length acts = length (lines contents))
  \/ read_activities fs filename = Raise ValueError.
Proof.
  intros H. unfold read_activities, parse_contents. rewrite H. apply parse_lines_result.
Qed.

Lemma read_activities_outcomes_witness :
  (fun f => if String.eqb f "activities.txt"%string then Some "a,1
b,2
"%string else None) "activities.txt"%string = Some "a,1
b,2
"%string
  /\ ((exists acts, read_activities (fun f => if String.eqb f "activities.txt"%string then Some "a,1
b,2
"%string else None) "activities.txt"%string = Ok acts
                /\ length acts = length (lines "a,1
b,2
"%string))
  \/ read_activities (fun f => if String.eqb f "activities.txt"%string then Some "a,1
b,2
"%string else None) "activities.txt"%string = Raise ValueError).
Proof.
  split; [reflexivity|]. apply read_activities_outcomes. reflexivity.
Defined.

(** A blank line (empty or whitespace only) anywhere in an existing file
    makes [read_activities] raise ValueError. *)
Theorem read_activities_blank_line (fs : file_store) (filename contents l : string) :
  fs filename = Some contents -> In l (lines contents) -> strip l = EmptyString ->
  read_activities fs filename = Raise ValueError.
Proof.
  intros H Hin Hb. unfold read_activities, parse_contents. rewrite H.
  exact (parse_lines_blank _ l Hin Hb).
Qed.

Lemma read_activities_blank_line_witness :
  read_activities (write_file (fun _ => None) "activities.txt"%string "a,1

b,2
"%string) "activities.txt"%string = Raise ValueError.
Proof.
  apply (read_activities_blank_line _ _ "a,1

b,2
"%string (String nl EmptyString)); [vm_compute; reflexivity | vm_compute; auto | reflexivity].
Defined.

(** [create_activity] on a readable file appends the new activity at the
    end: reading the file afterwards gives the old activities followed by
    it, when the name has no line break and does not begin with
    whitespace. *)
Theorem create_activity_appends (fs : file_store) (w : Nav.world) (self : nat)
  (name : string) (prio : Z) (acts : list Activity) :
  read_activities fs "activities.txt"%string = Ok acts -> name_ok name = true ->
  read_activities (fst (create_activity fs w self name prio)) "activities.txt"%string
  = Ok (acts ++ [mkActivity name prio]).
Proof.
  intros H Hn. unfold create_activity. rewrite H. simpl. apply read_after_write.
  apply Forall_app. split; [exact (read_names_ok _ _ _ H) | constructor; [exact Hn | constructor]].
Qed.

Lemma create_activity_appends_witness :
  read_activities (fst (create_activity
     (write_file (fun _ => None) "activities.txt"%string "Run,3
"%string)
     (Nav.mkWorld [0; 1]%nat [None; None] []) 1 "Swim"%string 2)) "activities.txt"%string
  = Ok [mkActivity "Run"%string 3; mkActivity "Swim"%string 2].
Proof.
  apply (create_activity_appends _ _ _ _ _ [mkActivity "Run"%string 3]);
    vm_compute; reflexivity.
Defined.

(** [save_activity] with the list read from the file: the file then holds
    the same activities with the priority of the first one named [name]
    replaced by [idx], or is unchanged when no activity has that name. *)
Theorem save_activity_file (fs0 fs : file_store) (acts : list Activity) (name : string) (idx : Z) :
  read_activities fs0 "activities.txt"%string = Ok acts ->
  (exists pre a post, acts = pre ++ a :: post /\ choice a = name
     /\ Forall (fun b => choice b <> name) pre
     /\ read_activities (snd (save_activity fs acts name idx)) "activities.txt"%string
        = Ok (pre ++ mkActivity name idx :: post))
  \/ (Forall (fun b => choice b <> name) acts
      /\ read_activities (snd (save_activity fs acts name idx)) "activities.txt"%string = Ok acts).
Proof.
  intros H. pose proof (read_names_ok _ _ _ H) as Hok.
  unfold save_activity. simpl. rewrite read_after_write by (apply set_first_priority_names_ok, Hok).
  destruct (set_first_priority_spec name idx acts) as [[pre [a [post [Ha [Hc [Hpre ->]]]]]] | [Hn ->]].
  - left. exists pre, a, post. auto.
  - right. auto.
Qed.

Lemma save_activity_file_witness :
  let fs := write_file (fun _ => None) "activities.txt"%string "Run,3
Swim,1
Run,0
"%string in
  read_activities fs "activities.txt"%string
    = Ok [mkActivity "Run"%string 3; mkActivity "Swim"%string 1; mkActivity "Run"%string 0]
  /\ ((exists pre a post, [mkActivity "Run"%string 3; mkActivity "Swim"%string 1; mkActivity "Run"%string 0]
            = pre ++ a :: post /\ choice a = "Run"%string
       /\ Forall (fun b => choice b <> "Run"%string) pre
       /\ read_activities (snd (save_activity fs
              [mkActivity "Run"%string 3; mkActivity "Swim"%string 1; mkActivity "Run"%string 0] "Run"%string 7))
            "activities.txt"%string = Ok (pre ++ mkActivity "Run"%string 7 :: post))
      \/ (Forall (fun b => choice b <> "Run"%string)
             [mkActivity "Run"%string 3; mkActivity "Swim"%string 1; mkActivity "Run"%string 0]
          /\ read_activities (snd (save_activity fs
              [mkActivity "Run"%string 3; mkActivity "Swim"%string 1; mkActivity "Run"%string 0] "Run"%string 7))
            "activities.txt"%string
             = Ok [mkActivity "Run"%string 3; mkActivity "Swim"%string 1; mkActivity "Run"%string 0])).
Proof.
  intros fs.
  assert (H : read_activities fs "activities.txt"%string
    = Ok [mkActivity "Run"%string 3; mkActivity "Swim"%string 1; mkActivity "Run"%string 0])
    by (vm_compute; reflexivity).
  split; [exact H | exact (save_activity_file fs fs _ "Run"%string 7 H)].
Defined.

(** [delete_activity] with the list read from the file: the file then
    holds the same activities without the first one named [name], or is
    unchanged when no activity has that name. *)
Theorem delete_activity_file (fs0 fs : file_store) (acts : list Activity) (w : Nav.world)
  (self : nat) (name : string) :
  read_activities fs0 "activities.txt"%string = Ok acts ->
  (exists pre a post, acts = pre ++ a :: post /\ choice a = name
     /\ Forall (fun b => choice b <> name) pre
     /\ read_activities (snd (fst (delete_activity fs acts w self name))) "activities.txt"%string
        = Ok (pre ++ post))
  \/ (Forall (fun b => choice b <> name) acts
      /\ read_activities (snd (fst (delete_activity fs acts w self name))) "activities.txt"%string
         = Ok acts).
Proof.
  intros H. pose proof (read_names_ok _ _ _ H) as Hok.
  unfold delete_activity. simpl.
  rewrite read_after_write by (apply remove_first_named_names_ok, Hok).
  destruct (remove_first_named_spec name acts) as [[pre [a [post [Ha [Hc [Hpre ->]]]]]] | [Hn ->]].
  - left. exists pre, a, post. auto.
  - right. auto.
Qed.

Lemma delete_activity_file_witness :
  let fs := write_file (fun _ => None) "activities.txt"%string "Run,3
Swim,1
"%string in
  let w := Nav.mkWorld [0; 1]%nat [None; None] [] in
  read_activities fs "activities.txt"%string = Ok [mkActivity "Run"%string 3; mkActivity "Swim"%string 1]
  /\ ((exists pre a post, [mkActivity "Run"%string 3; mkActivity "Swim"%string 1] = pre ++ a :: post
       /\ choice a = "Swim"%string /\ Forall (fun b => choice b <> "Swim"%string) pre
       /\ read_activities (snd (fst (delete_activity fs [mkActivity "Run"%string 3; mkActivity "Swim"%string 1]
              w 1 "Swim"%string))) "activities.txt"%string = Ok (pre ++ post))
      \/ (Forall (fun b => choice b <> "Swim"%string) [mkActivity "Run"%string 3; mkActivity "Swim"%string 1]
          /\ read_activities (snd (fst (delete_activity fs [mkActivity "Run"%string 3; mkActivity "Swim"%string 1]
              w 1 "Swim"%string))) "activities.txt"%string = Ok [mkActivity "Run"%string 3; mkActivity "Swim"%string 1])).
Proof.
  intros fs w.
  assert (H : read_activities fs "activities.txt"%string = Ok [mkActivity "Run"%string 3; mkActivity "Swim"%string 1])
    by (vm_compute; reflexivity).
  split; [exact H | exact (delete_activity_file fs fs _ w 1 "Swim"%string H)].
Defined.

End ActivityExtras.

(** ** [export_plan] *)
Section ExportProofs.
Import ActivityFile Widgets WeekPlanner.

Lemma py_getitem_cases {A : Type} (l : list A) (i : Z) :
  ((- Z.of_nat (length l) <= i < Z.of_nat (length l))
   /\ exists x, py_getitem l i = Ok x /\ In x l)
  \/ ((i < - Z.of_nat (length l) \/ Z.of_nat (length l) <= i)
      /\ py_getitem l i = Raise IndexError).
Proof.
  unfold py_getitem. set (n := Z.of_nat (length l)).
  set (j := if i <? 0 then i + n else i).
  assert (Hj : (i < 0 /\ j = i + n) \/ (0 <= i /\ j = i)).
  { unfold j. destruct (i <? 0) eqn:Hi; [apply Z.ltb_lt in Hi | apply Z.ltb_ge in Hi]; auto. }
  clearbody j.
  destruct ((j <? 0) || (n <=? j)) eqn:Hb.
  - right. split; [|reflexivity].
    apply orb_true_iff in Hb. destruct Hb as [Hb|Hb];
      [apply Z.ltb_lt in Hb | apply Z.leb_le in Hb]; lia.
  - apply orb_false_iff in Hb. destruct Hb as [Hb1 Hb2].
    apply Z.ltb_ge in Hb1. apply Z.leb_gt in Hb2. left. split; [lia|].
    destruct (nth_error l (Z.to_nat j)) as [x|] eqn:E.
    + exists x. split; [reflexivity | exact (nth_error_In _ _ E)].
    + apply nth_error_None in E. unfold n in Hb2. lia.
Qed.

Lemma py_getitem_in {A : Type} (l : list A) i x : py_getitem l i = Ok x -> In x l.
Proof.
  intros H. destruct (py_getitem_cases l i) as [[_ [y [Hy Hin]]] | [_ Hr]]; congruence.
Qed.

Lemma skipn_cons_nth {A : Type} n (l : list A) d x r :
  skipn n l = x :: r -> nth n l d = x /\ skipn (S n) l = r.
Proof.
  revert l. induction n as [|n IH]; intros [|y l] H; simpl in *; try discriminate.
  - injection H as -> ->. auto.
  - exact (IH l H).
Qed.

Lemma day_name_end k :
  skipn (S k) day_name = [] ->
  nth k day_name "Sunday"%string = "Sunday"%string
  /\ nth (S k) day_name "Sunday"%string = "Sunday"%string
  /\ skipn (S (S k)) day_name = [].
Proof.
  intros H. do 6 (destruct k as [|k]; [discriminate|]).
  destruct k as [|k]; [auto|]. destruct k; auto.
Qed.

Lemma forallb_chars_impl (f g : ascii -> bool) s :
  (forall c, f c = true -> g c = true) -> forallb_chars f s = true -> forallb_chars g s = true.
Proof.
  intros Hfg. induction s as [|c r IH]; simpl; [auto|].
  intros H. apply andb_prop in H as [Hc Hr]. rewrite (Hfg c Hc), (IH Hr). reflexivity.
Qed.

Lemma day_name_chars k :
  forallb_chars (fun c => ActivityFile.not_line_break c && negb (Ascii.eqb c ":"%char))
    (nth k day_name "Sunday"%string) = true.
Proof. do 7 (destruct k as [|k]; [reflexivity|]). destruct k; reflexivity. Qed.

(** The text of the plan from its [k]-th line on. *)
Lemma export_loop_ok cs : forall k d ds plan plan',
  d = nth k day_name "Sunday"%string -> ds = skipn (S k) day_name ->
  export_loop cs d ds plan = Ok plan' ->
  exists its, Forall2 (fun cb it => py_getitem (cb_items cb) (index cb) = Ok it) (combo_boxes cs) its
  /\ plan' = (plan ++ fold_right (fun p acc =>
                nth (fst p) day_name "Sunday" ++ ": " ++ snd p ++ String nl acc)
                EmptyString (combine (seq k (length its)) its))%string.
Proof.
  induction cs as [|w r IH]; intros k d ds plan plan' Hd Hds H; simpl in H.
  - injection H as <-. exists []. split; [constructor|]. simpl.
    induction plan as [|c u IHu]; simpl; congruence.
  - simpl. destruct (wkind w) as [|cb|text a|text]; try (apply (IH k d ds plan plan' Hd Hds H)).
    destruct (py_getitem (cb_items cb) (index cb)) as [it|e] eqn:Eg; simpl in H; [|discriminate].
    destruct ds as [|d' ds'].
    + destruct (day_name_end k (eq_sym Hds)) as [Hk [HSk Hs]].
      destruct (IH (S k) d [] _ plan' ltac:(congruence) (eq_sym Hs) H) as [its [Hf ->]].
      exists (it :: its). split; [constructor; assumption|]. simpl.
      rewrite Hd. repeat rewrite str_app_assoc. simpl. repeat rewrite str_app_assoc.
      reflexivity.
    + destruct (skipn_cons_nth (S k) day_name "Sunday"%string d' ds' (eq_sym Hds)) as [Hd' Hs].
      destruct (IH (S k) d' ds' _ plan' (eq_sym Hd') (eq_sym Hs) H) as [its [Hf ->]].
      exists (it :: its). split; [constructor; assumption|]. simpl.
      rewrite Hd. repeat rewrite str_app_assoc. simpl. repeat rewrite str_app_assoc.
      reflexivity.
Qed.

Lemma lines_plan k its :
  Forall (fun it => forallb_chars ActivityFile.not_line_break it = true) its ->
  lines (fold_right (fun p acc =>
            nth (fst p) day_name "Sunday" ++ ": " ++ snd p ++ String nl acc)
            EmptyString (combine (seq k (length its)) its))%string
  = map (fun p => nth (fst p) day_name "Sunday" ++ ": " ++ snd p ++ String nl EmptyString)%string
        (combine (seq k (length its)) its).
Proof.
  revert k. induction its as [|it its IH]; intros k H; [reflexivity|].
  inversion H as [|x y Hit Hits]; subst. simpl.
  set (acc := fold_right _ _ _).
  assert (Hb : forallb_chars ActivityFile.not_line_break
                 (nth k day_name "Sunday" ++ ": " ++ it)%string = true).
  { rewrite !forallb_chars_app, Hit, andb_true_r.
    rewrite (forallb_chars_impl _ ActivityFile.not_line_break _
               (fun c Hc => proj1 (andb_prop _ _ Hc)) (day_name_chars k)).
    reflexivity. }
  pose proof (lines_line _ acc Hb) as L. rewrite !str_app_assoc in L.
  simpl in L. rewrite L. f_equal. apply IH, Hits.
Qed.

Lemma plan_entry_line d it :
  forallb_chars (fun c => negb (Ascii.eqb c ":"%char)) d = true ->
  forallb_chars (fun c => negb (Ascii.eqb c ":"%char)) it = true ->
  Scheduler.plan_entry (d ++ ": " ++ it ++ String nl EmptyString)%string = Ok (strip it).
Proof.
  intros Hd Hit. unfold Scheduler.plan_entry.
  change (": " ++ it ++ String nl EmptyString)%string
    with (String ":" (String " " (it ++ String nl EmptyString))).
  rewrite split_app_sep, (split_no_sep _ d Hd), split_no_sep.
  - simpl. unfold strip. simpl. fold (strip (it ++ String nl EmptyString)).
    rewrite strip_nl. reflexivity.
  - simpl. rewrite forallb_chars_app, Hit. reflexivity.
Qed.

Lemma Forall2_items (cbs : list combobox) its (P : string -> Prop) :
  Forall (fun cb => Forall P (cb_items cb)) cbs ->
  Forall2 (fun cb it => py_getitem (cb_items cb) (index cb) = Ok it) cbs its ->
  Forall P its.
Proof.
  intros H H2. induction H2 as [|cb it cbs' its' Hg H2 IH]; [constructor|].
  inversion H; subst. constructor; [|apply IH; assumption].
  rewrite Forall_forall in *. eauto using py_getitem_in.
Qed.

Lemma export_loop_outcome cs : forall d ds plan,
  (Forall (fun cb => - Z.of_nat (length (cb_items cb)) <= index cb < Z.of_nat (length (cb_items cb)))
      (combo_boxes cs)
   /\ exists plan', export_loop cs d ds plan = Ok plan')
  \/ (Exists (fun cb => index cb < - Z.of_nat (length (cb_items cb))
                       \/ Z.of_nat (length (cb_items cb)) <= index cb) (combo_boxes cs)
      /\ export_loop cs d ds plan = Raise IndexError).
Proof.
  induction cs as [|w r IH]; intros d ds plan; simpl.
  - left. split; [constructor | eauto].
  - destruct (wkind w) as [|cb|text a|text]; try apply IH.
    destruct (py_getitem_cases (cb_items cb) (index cb)) as [[Hr [it [Hit _]]] | [Hr Hit]];
      rewrite Hit; simpl.
    + destruct ds as [|d' ds'];
        [destruct (IH d [] (plan ++ d ++ ": " ++ it ++ String nl EmptyString)%string)
           as [[Hf Hok] | [He Herr]]
        |destruct (IH d' ds' (plan ++ d ++ ": " ++ it ++ String nl EmptyString)%string)
           as [[Hf Hok] | [He Herr]]];
        [left | right | left | right]; split; auto.
    + right. split; [apply Exists_cons_hd; exact Hr | reflexivity].
Qed.

Lemma export_plan_lines_aux cs plan :
  export_plan_text cs = Ok plan ->
  Forall (fun cb => Forall (fun it => forallb_chars not_line_break it = true) (cb_items cb))
    (combo_boxes cs) ->
  exists its, Forall2 (fun cb it => py_getitem (cb_items cb) (index cb) = Ok it) (combo_boxes cs) its
  /\ lines plan = map (fun p => nth (fst p) day_name "Sunday" ++ ": " ++ snd p
                                 ++ String nl EmptyString)%string
                      (combine (seq 0 (length its)) its).
Proof.
  intros H Hitems. unfold export_plan_text in H. simpl in H.
  destruct (export_loop_ok cs 0 _ _ _ plan eq_refl eq_refl H) as [its [Hf ->]].
  exists its. split; [exact Hf|]. simpl. apply lines_plan.
  exact (Forall2_items _ its _ Hitems Hf).
Qed.

Lemma plan_entries k its :
  Forall (fun it => forallb_chars (fun c => negb (Ascii.eqb c ":"%char)) it = true
                    /\ strip it = it) its ->
  map Scheduler.plan_entry
    (map (fun p => nth (fst p) day_name "Sunday" ++ ": " ++ snd p ++ String nl EmptyString)%string
         (combine (seq k (length its)) its))
  = map Ok its.
Proof.
  revert k. induction its as [|it its IH]; intros k H; [reflexivity|].
  inversion H as [|x y [Hc Hs] Hits]; subst. cbn [map combine seq length fst snd].
  rewrite plan_entry_line, Hs, IH by (assumption || exact (forallb_chars_impl _ _ _
      (fun c Hc' => proj2 (andb_prop _ _ Hc')) (day_name_chars k))).
  reflexivity.
Qed.

End ExportProofs.

Section ExportExtras.
Import ActivityFile Widgets WeekPlanner.

(** [export_plan] builds its text exactly when every combobox index is a
    valid Python index of its items (from [-len] to [len - 1]); otherwise
    [component.items[component.index]] raises IndexError, and no other
    error can occur. *)
Theorem export_plan_text_outcome (cs : list widget) :
  (Forall (fun cb => - Z.of_nat (length (cb_items cb)) <= index cb < Z.of_nat (length (cb_items cb)))
      (combo_boxes cs)
   /\ exists plan, export_plan_text cs = Ok plan)
  \/ (Exists (fun cb => index cb < - Z.of_nat (length (cb_items cb))
                      \/ Z.of_nat (length (cb_items cb)) <= index cb) (combo_boxes cs)
      /\ export_plan_text cs = Raise IndexError).
Proof. unfold export_plan_text. simpl. apply export_loop_outcome. Qed.

(** The exported plan has one line per combobox, in order: the [k]-th
    reads ["<day>: <item>"] with the [k]-th weekday from Monday (Sunday
    for every combobox after the seventh) and the item the combobox shows,
    when no item contains a line break. *)
Theorem export_plan_lines (cs : list widget) (plan : string) :
  export_plan_text cs = Ok plan ->
  Forall (fun cb => Forall (fun it => forallb_chars not_line_break it = true) (cb_items cb))
    (combo_boxes cs) ->
  exists its, Forall2 (fun cb it => py_getitem (cb_items cb) (index cb) = Ok it) (combo_boxes cs) its
  /\ lines plan = map (fun p => nth (fst p) day_name "Sunday" ++ ": " ++ snd p
                                ++ String nl EmptyString)%string
                     (combine (seq 0 (length its)) its).
Proof. apply export_plan_lines_aux. Qed.

Lemma export_plan_lines_witness :
  let cs := [mkWidget false false (Label "Plan"%string);
             mkWidget true true (Combo (mkCombobox ["Run"; "Swim"]%string 1));
             mkWidget true false (Combo (mkCombobox ["Run"; "Swim"]%string (-2)))] in
  export_plan_text cs = Ok "Monday: Swim
Tuesday: Run
"%string
  /\ exists its, Forall2 (fun cb it => py_getitem (cb_items cb) (index cb) = Ok it) (combo_boxes cs) its
  /\ lines "Monday: Swim
Tuesday: Run
"%string = map (fun p => nth (fst p) day_name "Sunday" ++ ": " ++ snd p
                                ++ String nl EmptyString)%string
                     (combine (seq 0 (length its)) its).
Proof.
  intros cs.
  assert (H : export_plan_text cs = Ok "Monday: Swim
Tuesday: Run
"%string) by (vm_compute; reflexivity).
  split; [exact H|]. apply (export_plan_lines cs _ H).
  repeat constructor.
Defined.

(** The exported plan is what [adjust_priorities] later reads: taking
    [line.split(":")[1].strip()] of each of its lines gives back the items
    the comboboxes showed, in order, when the items have no colon and no
    line break and no surrounding whitespace. *)
Theorem export_plan_entries (cs : list widget) (plan : string) :
  export_plan_text cs = Ok plan ->
  Forall (fun cb => Forall (fun it =>
      forallb_chars (fun c => not_line_break c && negb (Ascii.eqb c ":"%char)) it = true
      /\ strip it = it) (cb_items cb)) (combo_boxes cs) ->
  exists its, Forall2 (fun cb it => py_getitem (cb_items cb) (index cb) = Ok it) (combo_boxes cs) its
  /\ map Scheduler.plan_entry (lines plan) = map Ok its.
Proof.
  intros H Hitems.
  destruct (export_plan_lines_aux cs plan H) as [its [Hf Hl]].
  - eapply Forall_impl; [|exact Hitems]. intros cb Hcb. eapply Forall_impl; [|exact Hcb].
    intros it [Hit _]. exact (forallb_chars_impl _ _ _
      (fun c Hc => proj1 (andb_prop _ _ Hc)) Hit).
  - exists its. split; [exact Hf|]. rewrite Hl. apply plan_entries.
    eapply Forall2_items; [|exact Hf]. eapply Forall_impl; [|exact Hitems].
    intros cb Hcb. eapply Forall_impl; [|exact Hcb]. intros it [Hit Hs]. split; [|exact Hs].
    exact (forallb_chars_impl _ _ _ (fun c Hc => proj2 (andb_prop _ _ Hc)) Hit).
Qed.

Lemma export_plan_entries_witness :
  let cs := [mkWidget true true (Combo (mkCombobox ["Run"; "Swim"]%string 1));
             mkWidget false false (Button "Save" 0);
             mkWidget true false (Combo (mkCombobox ["Run"; "Swim"]%string 0))] in
  export_plan_text cs = Ok "Monday: Swim
Tuesday: Run
"%string
  /\ exists its, Forall2 (fun cb it => py_getitem (cb_items cb) (index cb) = Ok it) (combo_boxes cs) its
  /\ map Scheduler.plan_entry (lines "Monday: Swim
Tuesday: Run
"%string) = map Ok its.
Proof.
  intros cs.
  assert (H : export_plan_text cs = Ok "Monday: Swim
Tuesday: Run
"%string) by (vm_compute; reflexivity).
  split; [exact H|]. apply (export_plan_entries cs _ H).
  repeat constructor.
Defined.

End ExportExtras.

(** ** Names kept by the scheduler *)
Section SchedulerNames.
Import ActivityFile Scheduler.

Lemma names_set h l a :
  choice a = choice (get h l) -> map choice (set h l a) = map choice h.
Proof.
  unfold get. revert l. induction h as [|x r IH]; intros [|l] H; simpl in *; try reflexivity.
  - rewrite H. reflexivity.
  - rewrite IH by exact H. reflexivity.
Qed.

Lemma names_bump h locs found : map choice (bump h locs found) = map choice h.
Proof.
  unfold bump. revert h. induction locs as [|l r IH]; intros h; simpl; [reflexivity|].
  rewrite IH. unfold bump_one. destruct (negb _); [apply names_set; reflexivity | reflexivity].
Qed.

Lemma scan_lines_error ls all found e :
  scan_lines ls all found = Raise e -> e = IndexError.
Proof.
  revert all found. induction ls as [|l r IH]; intros all found; simpl; [discriminate|].
  unfold plan_entry. destruct (nth_error (split ":"%char l) 1); simpl;
    [|intros H; injection H; auto].
  destruct (mem _ all); apply IH.
Qed.

Lemma adjust_loop_names plans h locs all found :
  map choice (fst (adjust_loop plans h locs all found)) = map choice h
  /\ forall e, snd (adjust_loop plans h locs all found) = Raise e -> e = IndexError.
Proof.
  revert h all found. induction plans as [|p ps IH]; intros h all found; simpl;
    [split; [reflexivity | discriminate]|].
  unfold adjust_round. destruct (scan_lines (lines p) all found) as [[all' found']|e] eqn:E;
    simpl.
  - destruct all' as [|x xs]; simpl.
    + split; [apply names_bump | discriminate].
    + destruct (IH (bump h locs found') (x :: xs) found') as [Hn He].
      rewrite Hn, names_bump. auto.
  - split; [reflexivity|]. intros e' H. injection H as <-. exact (scan_lines_error _ _ _ _ E).
Qed.

Lemma adjust_priorities_names dir h locs :
  map choice (fst (adjust_priorities dir h locs)) = map choice h
  /\ forall e, snd (adjust_priorities dir h locs) = Raise e -> e <> ValueError.
Proof.
  unfold adjust_priorities. destruct dir as [[|p ps]|]; simpl;
    [split; [reflexivity | discriminate] | | split; [reflexivity | congruence]].
  destruct (adjust_loop_names (map snd (sort_desc (p :: ps))) h locs
              (map (fun l => choice (get h l)) locs) []) as [Hn He].
  destruct (adjust_loop _ _ _ _ _) as [h' r]. simpl in *. split; [exact Hn|].
  destruct r as [u|e]; simpl; [discriminate|]. intros e' H. injection H as <-.
  rewrite (He e eq_refl). discriminate.
Qed.

Lemma pool_names h h0 acts locs c :
  map choice h = map choice (h0 ++ acts) ->
  locs = seq (length h0) (length acts) ->
  In c (pool h locs) -> In c (map choice acts).
Proof.
  intros Hn -> Hin. unfold pool in Hin. apply in_flat_map in Hin as [l [Hl Hc]].
  apply repeat_spec in Hc. subst c. apply in_seq in Hl.
  unfold get. rewrite <- (map_nth choice h dflt l). simpl choice.
  change (choice dflt) with EmptyString. rewrite Hn, map_app.
  rewrite app_nth2 by (rewrite length_map; lia). rewrite length_map.
  apply nth_In. rewrite length_map. lia.
Qed.

Lemma py_choice_in rb xs c : py_choice rb xs = Ok c -> In c xs.
Proof.
  unfold py_choice. destruct xs as [|x r]; [discriminate|].
  destruct (nth_error _ _) eqn:E; intros H; inversion H; subst. exact (nth_error_In _ _ E).
Qed.

Lemma py_choice_error rb xs e : py_choice rb xs = Raise e -> e = IndexError.
Proof.
  unfold py_choice. destruct xs as [|x r]; [intros H; injection H; auto|].
  destruct (nth_error _ _); intros H; inversion H; reflexivity.
Qed.

(** [get_random_activity] keeps every name in the heap, draws one of the
    names read from the file, and raises no ValueError when the file reads. *)
Lemma get_random_activity_names rb fs dir h acts :
  read_activities fs "activities.txt" = Ok acts ->
  map choice (fst (get_random_activity rb fs dir h)) = map choice (h ++ acts)
  /\ (forall c, snd (get_random_activity rb fs dir h) = Ok c -> In c (map choice acts))
  /\ (forall e, snd (get_random_activity rb fs dir h) = Raise e -> e <> ValueError).
Proof.
  intros Hr. unfold get_random_activity. rewrite Hr. unfold alloc.
  destruct (adjust_priorities_names dir (h ++ acts) (seq (length h) (length acts))) as [Hn He].
  destruct (adjust_priorities_result dir (h ++ acts) (seq (length h) (length acts))) as [[e0 Hr0]|Hok];
  destruct (adjust_priorities dir (h ++ acts) (seq (length h) (length acts))) as [h2 r] eqn:E;
  simpl in *; subst r.
  - split; [exact Hn|]. split; [discriminate|]. intros e H. injection H as <-. apply He; reflexivity.
  - split; [exact Hn|]. split.
    + intros c Hc. apply py_choice_in in Hc. exact (pool_names _ _ _ _ c Hn eq_refl Hc).
    + intros e H. apply py_choice_error in H. subst. discriminate.
Qed.

End SchedulerNames.

(** ** [randomise_activities] *)
Section RandomiseProofs.
Import ActivityFile Widgets WeekPlanner.

Lemma index_of_some x l i :
  MenuList.index_of x l = Some i -> (i < length l)%nat /\ nth i l EmptyString = x.
Proof.
  revert i. induction l as [|y r IH]; intros i; simpl; [discriminate|].
  destruct (String.eqb x y) eqn:E.
  - intros H. injection H as <-. apply String.eqb_eq in E. split; [lia | auto].
  - destruct (MenuList.index_of x r) as [j|]; simpl; [|discriminate].
    intros H. injection H as <-. destruct (IH j eq_refl). split; [lia | auto].
Qed.

Lemma index_of_in x l : In x l -> exists i, MenuList.index_of x l = Some i.
Proof.
  induction l as [|y r IH]; simpl; [tauto|]. intros Hin.
  destruct (String.eqb x y) eqn:E; [eauto|].
  destruct Hin as [->|Hin]; [rewrite String.eqb_refl in E; discriminate|].
  destruct (IH Hin) as [j ->]. simpl. eauto.
Qed.

Lemma randomise_loop_spec rnd fs dir acts cs :
  read_activities fs "activities.txt" = Ok acts ->
  Forall (fun cb => Forall (fun a => In (choice a) (cb_items cb)) acts) (combo_boxes cs) ->
  forall k h h' cs' r, randomise_loop rnd k fs dir h cs = (h', cs', r) ->
  r <> Raise ValueError
  /\ map cb_items (combo_boxes cs') = map cb_items (combo_boxes cs)
  /\ (r = Ok tt -> Forall (fun cb => exists i, index cb = Z.of_nat i
         /\ (i < length (cb_items cb))%nat /\ In (nth i (cb_items cb) EmptyString) (map choice acts))
       (combo_boxes cs')).
Proof.
  intros Hread. induction cs as [|w r0 IH]; intros Hcb k h h' cs' r H; simpl in H.
  - injection H as <- <- <-. split; [discriminate|]. split; [reflexivity|]. intros _. constructor.
  - simpl in Hcb. destruct (wkind w) as [t|cb|t a|t] eqn:Ew.
    3: { destruct (randomise_loop rnd k fs dir h r0) as [[h2 r'] res] eqn:Er.
         injection H as <- <- <-.
         destruct (IH Hcb k h h2 r' res Er) as [Hv [Hi Hok]]. simpl. rewrite Ew. auto. }
    1: { destruct (randomise_loop rnd k fs dir h r0) as [[h2 r'] res] eqn:Er.
         injection H as <- <- <-.
         destruct (IH Hcb k h h2 r' res Er) as [Hv [Hi Hok]]. simpl. rewrite Ew. auto. }
    2: { destruct (randomise_loop rnd k fs dir h r0) as [[h2 r'] res] eqn:Er.
         injection H as <- <- <-.
         destruct (IH Hcb k h h2 r' res Er) as [Hv [Hi Hok]]. simpl. rewrite Ew. auto. }
    inversion Hcb as [|x y Hcb0 Hcbs]; subst.
    destruct (get_random_activity_names (rnd k) fs dir h acts Hread) as [_ [Hin Herr]].
    destruct (Scheduler.get_random_activity (rnd k) fs dir h) as [h1 [c|e]] eqn:Eg;
      simpl in Hin, Herr.
    + assert (Hc : In c (cb_items cb)).
      { destruct (proj1 (in_map_iff _ _ _) (Hin c eq_refl)) as [a [<- Ha]].
        rewrite Forall_forall in Hcb0. exact (Hcb0 a Ha). }
      destruct (index_of_in c (cb_items cb) Hc) as [i Hi]. rewrite Hi in H.
      destruct (index_of_some _ _ _ Hi) as [Hlt Hnth].
      destruct (randomise_loop rnd (S k) fs dir h1 r0) as [[h2 r'] res] eqn:Er.
      injection H as <- <- <-.
      destruct (IH Hcbs (S k) h1 h2 r' res Er) as [Hv [Hitems Hok]].
      split; [exact Hv|]. simpl. rewrite Ew, Hitems. split; [reflexivity|].
      intros Hres. constructor; [|exact (Hok Hres)].
      exists i. simpl. split; [reflexivity|]. split; [exact Hlt|]. rewrite Hnth. apply Hin. reflexivity.
    + injection H as <- <- <-. split; [intros He; injection He; exact (Herr e eq_refl)|].
      split; [reflexivity|].
      discriminate.
Qed.

End RandomiseProofs.

Section RandomiseExtras.
Import ActivityFile Widgets WeekPlanner.

(** When every combobox lists the name of every activity in the file and
    the file reads, [randomise_activities] never raises ValueError
    ([items.index] always finds the drawn name), keeps each combobox's
    items, and when it completes every combobox shows, at an index in
    range, the name of an activity of the file. *)
Theorem randomise_activities_shows_names (rnd : nat -> nat -> nat) (fs : file_store)
  (dir : option (list (string * string))) (h : Scheduler.heap) (cs : list widget)
  (acts : list Activity) :
  read_activities fs "activities.txt" = Ok acts ->
  Forall (fun cb => Forall (fun a => In (choice a) (cb_items cb)) acts) (combo_boxes cs) ->
  snd (randomise_activities rnd fs dir h cs) <> Raise ValueError
  /\ map cb_items (combo_boxes (snd (fst (randomise_activities rnd fs dir h cs))))
     = map cb_items (combo_boxes cs)
  /\ (snd (randomise_activities rnd fs dir h cs) = Ok tt ->
      Forall (fun cb => exists i, index cb = Z.of_nat i
         /\ (i < length (cb_items cb))%nat /\ In (nth i (cb_items cb) EmptyString) (map choice acts))
       (combo_boxes (snd (fst (randomise_activities rnd fs dir h cs))))).
Proof.
  intros Hr Hcb. unfold randomise_activities.
  destruct (randomise_loop rnd 0 fs dir h cs) as [[h' cs'] r] eqn:E. simpl.
  exact (randomise_loop_spec rnd fs dir acts cs Hr Hcb 0 h h' cs' r E).
Qed.

Lemma randomise_activities_shows_names_witness :
  let fs := write_file (fun _ => None) "activities.txt" "Run,2
Swim,1
"%string in
  let cs := [mkWidget true true (Combo (mkCombobox ["Run"; "Swim"]%string 0));
             mkWidget false false (Label "Tuesday"%string);
             mkWidget true false (Combo (mkCombobox ["Swim"; "Run"]%string 0))] in
  let dir := Some [("week_plan_2024-01-01.txt", "Monday: Run
")%string] in
  snd (randomise_activities (fun k n => k mod n)%nat fs dir [] cs) = Ok tt
  /\ (snd (randomise_activities (fun k n => k mod n)%nat fs dir [] cs) <> Raise ValueError
  /\ map cb_items (combo_boxes (snd (fst (randomise_activities (fun k n => k mod n)%nat fs dir [] cs))))
     = map cb_items (combo_boxes cs)
  /\ (snd (randomise_activities (fun k n => k mod n)%nat fs dir [] cs) = Ok tt ->
      Forall (fun cb => exists i, index cb = Z.of_nat i
         /\ (i < length (cb_items cb))%nat /\ In (nth i (cb_items cb) EmptyString)
               (map choice [mkActivity "Run" 2; mkActivity "Swim" 1]))
       (combo_boxes (snd (fst (randomise_activities (fun k n => k mod n)%nat fs dir [] cs)))))).
Proof.
  intros fs cs dir. split; [vm_compute; reflexivity|].
  apply randomise_activities_shows_names; [vm_compute; reflexivity|].
  simpl. repeat apply Forall_cons; try apply Forall_nil; simpl; tauto.
Defined.

End RandomiseExtras.

(** ** Opening a screen and going back *)
Section NavProofs.
Import Nav.

Lemma list_set_twice {A : Type} (l : list A) i x y :
  list_set (list_set l i x) i y = list_set l i y.
Proof. revert i. induction l as [|z r IH]; intros [|i]; simpl; f_equal; auto. Qed.

Lemma list_set_app_l {A : Type} (l m : list A) i x :
  (i < length l)%nat -> list_set (l ++ m) i x = list_set l i x ++ m.
Proof.
  revert i. induction l as [|z r IH]; intros [|i] Hi; simpl in *; try lia; [reflexivity|].
  rewrite IH by lia. reflexivity.
Qed.

Lemma list_set_last {A : Type} (l : list A) y x :
  list_set (l ++ [y]) (length l) x = l ++ [x].
Proof. induction l as [|z r IH]; simpl; [reflexivity|]. rewrite IH. reflexivity. Qed.

End NavProofs.

Section NavExtras.
Import Nav.

(** A button that opens a new screen from the screen on top of
    [state_history], followed by the new screen's "Back"
    ([regress_state]) and the next [update] of each: the opener is shown
    again, [state_history] is as before, both screens' [next_state] are
    cleared, and [on_regress] has run for the new screen and then for the
    opener. *)
Theorem open_then_back (w : world) (hist : list nat) (self : nat) :
  history w = hist ++ [self] -> (self < length (next_states w))%nat ->
  let '(w1, st) := advance_new w self in
  exists w2 w3 w4,
    update w1 self = Ok (Some st, w2)
    /\ regress_state w2 st = Ok w3
    /\ update w3 st = Ok (Some self, w4)
    /\ history w4 = history w
    /\ next_states w4 = list_set (next_states w) self None ++ [None]
    /\ regressed w4 = regressed w ++ [st; self].
Proof.
  intros Hh Hself. destruct w as [h ns reg]. simpl in *. subst h.
  unfold advance_new, construct, advance_state, set_next. simpl.
  set (st := length ns).
  assert (Hst : (self < length (ns ++ [None]))%nat) by (rewrite length_app; simpl; lia).
  eexists. eexists. eexists. split; [|split; [|split]].
  - unfold update, next_of. simpl. rewrite nth_list_set_eq by exact Hst.
    rewrite rev_app_distr. simpl. rewrite Nat.eqb_refl. reflexivity.
  - unfold regress_state. simpl. rewrite !rev_app_distr. simpl. reflexivity.
  - unfold update, next_of, set_next. simpl.
    rewrite nth_list_set_eq
      by (rewrite !length_list_set, length_app; simpl; unfold st; lia).
    rewrite rev_involutive, rev_app_distr. simpl. rewrite Nat.eqb_refl. reflexivity.
  - simpl. split; [reflexivity|]. split; [|rewrite <- app_assoc; reflexivity].
    rewrite !list_set_twice, list_set_app_l by lia.
    replace st with (length (list_set ns self None)) by (apply length_list_set).
    apply list_set_last.
Qed.

Lemma open_then_back_witness :
  let w0 := fst (construct (mkWorld [] [] [])) in
  history w0 = [] ++ [0%nat] /\ (0 < length (next_states w0))%nat /\
  let '(w1, st) := advance_new w0 0 in
  exists w2 w3 w4,
    update w1 0 = Ok (Some st, w2)
    /\ regress_state w2 st = Ok w3
    /\ update w3 st = Ok (Some 0%nat, w4)
    /\ history w4 = history w0
    /\ next_states w4 = list_set (next_states w0) 0 None ++ [None]
    /\ regressed w4 = regressed w0 ++ [st; 0%nat].
Proof.
  intros w0. split; [reflexivity|]. split; [simpl; lia|].
  apply (open_then_back w0 [] 0); [reflexivity | simpl; lia].
Defined.

End NavExtras.

(** ** More on [Container.handle_input] *)
Section ContainerMoreProofs.
Import Keys Widgets.

Lemma selected_selectable cs i :
  reachable cs -> selected_at cs i -> selectable (nth i cs dflt) = true.
Proof.
  intros Hr Hat. pose proof Hat as [Hi Hs]. pose proof (Hs i Hi) as Hii.
  rewrite Nat.eqb_refl in Hii.
  destruct (reachable_focus_ok cs Hr) as [Hnone|[i' [[Hi' Hs'] Hsel']]].
  - rewrite Hnone in Hii. discriminate.
  - rewrite Hs' in Hii by exact Hi. apply Nat.eqb_eq in Hii. subst. exact Hsel'.
Qed.

Lemma with_selected_id w b : selected w = b -> with_selected w b = w.
Proof. destruct w as [s b' k]. simpl. intros ->. reflexivity. Qed.

Lemma kind_handle_up k : kind_handle_input KEY_UP k = Ok (k, []).
Proof. destruct k as [t|[its idx]|t a|t]; reflexivity. Qed.

Lemma forward_up cs : forward KEY_UP cs = Done cs [].
Proof.
  induction cs as [|[s b k] r IH]; [reflexivity|].
  simpl. rewrite IH. destruct b; [rewrite kind_handle_up|]; reflexivity.
Qed.

Lemma seek_first_neg cs i : forall f v,
  (1 <= v)%nat ->
  (exists u, (v <= u < v + f)%nat /\ selectable (at_offset cs i (- Z.of_nat u)) = true) ->
  exists w, seek f cs i (- Z.of_nat v) = MoveBy (- Z.of_nat w) /\ (v <= w < v + f)%nat /\
    selectable (at_offset cs i (- Z.of_nat w)) = true /\
    forall u, (v <= u < w)%nat -> selectable (at_offset cs i (- Z.of_nat u)) = false.
Proof.
  induction f as [|f IH]; intros v Hv [u [Hu Hsu]]; [lia|].
  simpl. destruct (selectable (at_offset cs i (- Z.of_nat v))) eqn:Ev.
  - exists v. repeat split; auto; lia.
  - replace (- Z.of_nat v + Z.sgn (- Z.of_nat v))%Z with (- Z.of_nat (S v))%Z
      by (rewrite Z.sgn_neg by lia; lia).
    destruct (IH (S v) ltac:(lia)) as [w [Hs [Hw [Hsw Hbefore]]]].
    { exists u. split; [|exact Hsu]. destruct (Nat.eq_dec u v); [subst; congruence|lia]. }
    exists w. repeat split; auto; try lia.
    intros u' Hu'. destruct (Nat.eq_dec u' v); [subst; exact Ev|]. apply Hbefore. lia.
Qed.

Lemma back_index n i w u :
  (0 < n)%nat -> (u <= w)%nat ->
  Z.to_nat ((Z.of_nat ((i + w) mod n) + - Z.of_nat u) mod Z.of_nat n) = ((i + (w - u)) mod n)%nat.
Proof.
  intros Hn Hu. rewrite Nat2Z.inj_mod, Z.add_opp_r, Zminus_mod_idemp_l.
  replace (Z.of_nat (i + w) - Z.of_nat u)%Z with (Z.of_nat (i + (w - u))) by lia.
  rewrite <- Nat2Z.inj_mod, Nat2Z.id. reflexivity.
Qed.

(** Moving the selection from [i] to [j] and back gives the container
    back. *)
Lemma move_back cs i j :
  selected_at cs i -> (j < length cs)%nat ->
  let cs1 := list_set cs i (with_selected (nth i cs dflt) false) in
  let cs2 := list_set cs1 j (with_selected (nth j cs1 dflt) true) in
  let cs3 := list_set cs2 j (with_selected (nth j cs2 dflt) false) in
  list_set cs3 i (with_selected (nth i cs3 dflt) true) = cs.
Proof.
  intros [Hi Hs] Hj cs1 cs2 cs3.
  assert (L1 : length cs1 = length cs) by apply length_list_set.
  assert (L2 : length cs2 = length cs) by (unfold cs2; rewrite length_list_set; exact L1).
  assert (L3 : length cs3 = length cs) by (unfold cs3; rewrite length_list_set; exact L2).
  apply (nth_ext _ _ dflt dflt); [rewrite length_list_set; exact L3|].
  intros k Hk. rewrite length_list_set, L3 in Hk.
  destruct (Nat.eq_dec i k) as [<-|Hik].
  - rewrite nth_list_set_eq by lia.
    assert (E : exists b, nth i cs3 dflt = with_selected (nth i cs dflt) b).
    { unfold cs3, cs2, cs1. destruct (Nat.eq_dec j i) as [->|Hji].
      - rewrite !nth_list_set_eq by (rewrite ?length_list_set; lia). eexists; reflexivity.
      - rewrite !nth_list_set_neq by auto. rewrite nth_list_set_eq by lia.
        eexists; reflexivity. }
    destruct E as [b ->].
    change (with_selected (with_selected (nth i cs dflt) b) true)
      with (with_selected (nth i cs dflt) true).
    apply with_selected_id. rewrite (Hs i Hi), Nat.eqb_refl. reflexivity.
  - rewrite nth_list_set_neq by exact Hik.
    destruct (Nat.eq_dec j k) as [<-|Hjk].
    + unfold cs3. rewrite nth_list_set_eq by lia. unfold cs2.
      rewrite nth_list_set_eq by lia. unfold cs1. rewrite nth_list_set_neq by exact Hik.
      transitivity (with_selected (nth j cs dflt) false); [reflexivity|].
      apply with_selected_id. rewrite (Hs j Hj). apply Nat.eqb_neq. auto.
    + unfold cs3, cs2, cs1. rewrite !nth_list_set_neq by assumption. reflexivity.
Qed.

Lemma restore_selected cs i :
  selected_at cs i ->
  list_set (list_set cs i (with_selected (nth i cs dflt) false)) i
    (with_selected (nth i (list_set cs i (with_selected (nth i cs dflt) false)) dflt) true) = cs.
Proof.
  intros [Hi Hs]. rewrite nth_list_set_eq by exact Hi. simpl.
  rewrite list_set_twice.
  apply (nth_ext _ _ dflt dflt); [apply length_list_set|].
  intros k Hk. rewrite length_list_set in Hk.
  destruct (Nat.eq_dec i k) as [<-|Hik].
  - rewrite nth_list_set_eq by exact Hi.
    transitivity (with_selected (nth i cs dflt) true); [reflexivity|].
    apply with_selected_id. rewrite (Hs i Hi), Nat.eqb_refl. reflexivity.
  - rewrite nth_list_set_neq by exact Hik. reflexivity.
Qed.

End ContainerMoreProofs.

Section ContainerExtras.
Import Keys Widgets.

(** In every container the program builds, a key other than -1, down and
    up never moves the selection: [Container.handle_input] only hands it
    to the selected widget, and which widget is selected (and which are
    selectable) stays the same. *)
Theorem other_keys_keep_focus (cs : list widget) (key : Z) :
  reachable cs -> key <> NO_KEY -> key <> KEY_DOWN -> key <> KEY_UP ->
  handle_input key cs = forward key cs
  /\ forall cs' fired, handle_input key cs = Done cs' fired ->
     map (fun w => (selectable w, selected w)) cs' = map (fun w => (selectable w, selected w)) cs.
Proof.
  intros Hr H1 H2 H3.
  assert (E : handle_input key cs = forward key cs).
  { unfold handle_input.
    rewrite (proj2 (Z.eqb_neq _ _) H1), (proj2 (Z.eqb_neq _ _) H2), (proj2 (Z.eqb_neq _ _) H3).
    destruct (reachable_focus_ok cs Hr) as [Hnone|[i [Hat Hsel]]].
    - rewrite first_selected_none by exact Hnone. reflexivity.
    - rewrite (first_selected_at cs i Hat). pose proof Hat as [Hi Hs].
      unfold find_move. simpl (0 =? 0)%Z. cbv iota.
      assert (Hoff : selectable (at_offset (list_set cs i (with_selected (nth i cs dflt) false)) i 0)
                     = true).
      { change 0%Z with (Z.of_nat 0). rewrite at_offset_nat, map_sel_list_set by reflexivity.
        rewrite length_list_set, Nat.add_0_r, mod_small_eq by exact Hi.
        rewrite nth_sel. exact Hsel. }
      rewrite Hoff. rewrite Z.add_0_r, length_list_set, <- Nat2Z.inj_mod, Nat2Z.id,
        mod_small_eq by exact Hi.
      rewrite restore_selected by exact Hat. reflexivity. }
  split; [exact E|]. intros cs' fired H. rewrite E in H. exact (forward_flags _ _ _ _ H).
Qed.

Lemma other_keys_keep_focus_witness :
  let cs := add_component (add_component (add_component []
              (Label "Enter the name of the new activity:"%string)) (TextInput EmptyString))
              (Button "Back"%string 0) in
  reachable cs /\ (97 <> NO_KEY /\ 97 <> KEY_DOWN /\ 97 <> KEY_UP)%Z /\
  handle_input 97 cs = forward 97 cs
  /\ forall cs' fired, handle_input 97 cs = Done cs' fired ->
     map (fun w => (selectable w, selected w)) cs' = map (fun w => (selectable w, selected w)) cs.
Proof.
  intros cs.
  assert (Hr : reachable cs) by (repeat apply reach_add; apply reach_nil).
  split; [exact Hr|]. split; [vm_compute; repeat split; discriminate|].
  apply other_keys_keep_focus; [exact Hr | vm_compute; discriminate ..].
Defined.

Lemma down_then_up_at (cs : list widget) (i : nat) :
  reachable cs -> selected_at cs i ->
  exists cs1 j, handle_input KEY_DOWN cs = Done cs1 [] /\ selected_at cs1 j
    /\ handle_input KEY_UP cs1 = Done cs [].
Proof.
  intros Hr Hat. pose proof (selected_selectable cs i Hr Hat) as Hsel.
  pose proof Hat as [Hi Hs].
  unfold handle_input at 1. rewrite (first_selected_at cs i Hat).
  replace (KEY_DOWN =? NO_KEY)%Z with false by reflexivity.
  replace (KEY_DOWN =? KEY_DOWN)%Z with true by reflexivity.
  set (cs1 := list_set cs i (with_selected (nth i cs dflt) false)).
  assert (Hlen : length cs1 = length cs) by apply length_list_set.
  assert (Hmap1 : map selectable cs1 = map selectable cs) by (apply map_sel_list_set; reflexivity).
  assert (Hoff : forall u, selectable (at_offset cs1 i (Z.of_nat u)) =
                           nth ((i + u) mod length cs) (map selectable cs) false).
  { intros u. rewrite at_offset_nat, Hmap1, Hlen. reflexivity. }
  destruct (seek_first cs1 i (length cs1) 1 ltac:(lia)) as [w [Hseek [Hw [Hsw Hbefore]]]].
  { exists (length cs). split; [lia|]. rewrite Hoff.
    rewrite mod_minus by lia. rewrite Nat.add_sub, nth_sel. exact Hsel. }
  unfold find_move. replace (1 =? 0)%Z with false by reflexivity.
  change (Z.of_nat 1) with 1%Z in Hseek. rewrite Hseek.
  assert (Ej : Z.to_nat ((Z.of_nat i + Z.of_nat w) mod Z.of_nat (length cs1)) =
               ((i + w) mod length cs)%nat).
  { rewrite <- Nat2Z.inj_add, <- Nat2Z.inj_mod, Nat2Z.id, Hlen. reflexivity. }
  rewrite Ej. rewrite forward_down.
  set (j := ((i + w) mod length cs)%nat).
  assert (Hj : (j < length cs)%nat) by (apply Nat.mod_upper_bound; lia).
  set (cs2 := list_set cs1 j (with_selected (nth j cs1 dflt) true)).
  assert (Hat2 : selected_at cs2 j) by (apply select_moved; auto).
  exists cs2, j. split; [reflexivity|]. split; [exact Hat2|].
  unfold handle_input. rewrite (first_selected_at cs2 j Hat2).
  replace (KEY_UP =? NO_KEY)%Z with false by reflexivity.
  replace (KEY_UP =? KEY_DOWN)%Z with false by reflexivity.
  replace (KEY_UP =? KEY_UP)%Z with true by reflexivity.
  set (cs3 := list_set cs2 j (with_selected (nth j cs2 dflt) false)).
  assert (Hlen3 : length cs3 = length cs)
    by (unfold cs3, cs2; rewrite !length_list_set; exact Hlen).
  assert (Hmap3 : map selectable cs3 = map selectable cs).
  { unfold cs3. rewrite map_sel_list_set by reflexivity.
    unfold cs2. rewrite map_sel_list_set by reflexivity. exact Hmap1. }
  assert (Hback : forall u, (u <= w)%nat ->
    selectable (at_offset cs3 j (- Z.of_nat u)) = nth ((i + (w - u)) mod length cs) (map selectable cs) false).
  { intros u Hu. unfold at_offset. rewrite Hlen3. unfold j.
    rewrite back_index by lia. rewrite <- Hmap3, nth_sel. reflexivity. }
  destruct (seek_first_neg cs3 j (length cs3) 1 ltac:(lia)) as [w' [Hseek' [Hw' [Hsw' Hbefore']]]].
  { exists w. split; [lia|]. rewrite Hback by lia. rewrite Nat.sub_diag, Nat.add_0_r.
    rewrite mod_small_eq by exact Hi. rewrite nth_sel. exact Hsel. }
  assert (Hww : w' = w).
  { destruct (lt_eq_lt_dec w' w) as [[Hlt|Heq]|Hgt]; auto.
    - exfalso. rewrite Hback in Hsw' by lia.
      rewrite <- Hoff, Hbefore in Hsw' by lia. discriminate.
    - exfalso. assert (Hb := Hbefore' w ltac:(lia)). rewrite Hback in Hb by lia.
      rewrite Nat.sub_diag, Nat.add_0_r, mod_small_eq, nth_sel in Hb by exact Hi.
      congruence. }
  subst w'.
  unfold find_move. replace (-1 =? 0)%Z with false by reflexivity.
  change (- Z.of_nat 1)%Z with (-1)%Z in Hseek'. rewrite Hseek'.
  assert (Ei : Z.to_nat ((Z.of_nat j + - Z.of_nat w) mod Z.of_nat (length cs3)) = i).
  { rewrite Hlen3. unfold j. rewrite back_index by lia.
    rewrite Nat.sub_diag, Nat.add_0_r. apply mod_small_eq, Hi. }
  rewrite Ei, forward_up. f_equal. exact (move_back cs i j Hat Hj).
Qed.

Lemma forward_none key cs :
  (forall k, selected (nth k cs dflt) = false) -> forward key cs = Done cs [].
Proof.
  induction cs as [|w r IH]; intros H; [reflexivity|].
  simpl. pose proof (H 0%nat) as H0. simpl in H0. rewrite H0.
  rewrite IH by (intros k; exact (H (S k))).
  destruct w as [a b c]. simpl in H0 |- *. subst b. reflexivity.
Qed.

(** In every container the program builds, the down key followed by the
    up key gives back the very same container and runs no callback: when
    a widget is selected, the selection moves to the next selectable
    widget and back; when none is (no widget is selectable), both keys
    change nothing. *)
Theorem down_then_up (cs : list widget) :
  reachable cs ->
  exists cs1, handle_input KEY_DOWN cs = Done cs1 [] /\ handle_input KEY_UP cs1 = Done cs []
  /\ ((forall k, selected (nth k cs dflt) = false) -> cs1 = cs).
Proof.
  intros Hr. destruct (reachable_focus_ok cs Hr) as [Hnone|[i [Hat _]]].
  - assert (E : forall key, (key =? NO_KEY)%Z = false -> handle_input key cs = Done cs []).
    { intros key Hk. unfold handle_input. rewrite Hk, (first_selected_none cs Hnone).
      apply forward_none, Hnone. }
    exists cs. split; [apply E; reflexivity|]. split; [apply E; reflexivity | auto].
  - destruct (down_then_up_at cs i Hr Hat) as [cs1 [j [H1 [_ H2]]]].
    exists cs1. split; [exact H1|]. split; [exact H2|].
    intros Hn. exfalso. destruct Hat as [Hi Hs]. pose proof (Hs i Hi) as Hsi.
    rewrite Hn, Nat.eqb_refl in Hsi. discriminate.
Qed.

Lemma down_then_up_witness :
  let cs := add_component (add_component (add_component (add_component []
              (Label "Welcome to Week Planner!"%string)) (Button "Week Planner"%string 0))
              (Label "Pick one:"%string)) (Button "Quit"%string 1) in
  reachable cs /\
  exists cs1, handle_input KEY_DOWN cs = Done cs1 [] /\ handle_input KEY_UP cs1 = Done cs []
  /\ ((forall k, selected (nth k cs dflt) = false) -> cs1 = cs).
Proof.
  intros cs.
  assert (Hr : reachable cs) by (repeat apply reach_add; apply reach_nil).
  split; [exact Hr | exact (down_then_up cs Hr)].
Defined.

End ContainerExtras.

(** ** Widget input *)
Section WidgetInputProofs.
Import Widgets.

Lemma list_ascii_of_string_app s t :
  list_ascii_of_string (s ++ t) = list_ascii_of_string s ++ list_ascii_of_string t.
Proof. induction s as [|c r IH]; simpl; [reflexivity|]. rewrite IH. reflexivity. Qed.

Lemma drop_last_snoc t a : drop_last (t ++ String a EmptyString) = t.
Proof.
  unfold drop_last. rewrite list_ascii_of_string_app. simpl.
  rewrite rev_app_distr. simpl. rewrite rev_involutive.
  apply string_of_list_ascii_of_string.
Qed.

End WidgetInputProofs.

Section WidgetInputExtras.
Import Keys Widgets.

(** A text input that receives a character code [c] from 0 to 255 other
    than backspace (8), newline (10) and escape (27) appends [chr(c)] to its
    text, and a backspace afterwards gives the text back. *)
Theorem textinput_type_then_backspace (t : string) (c : Z) :
  0 <= c < 256 -> c <> BS -> c <> 10 -> c <> ESC ->
  kind_handle_input c (TextInput t)
    = Ok (TextInput (t ++ String (ascii_of_nat (Z.to_nat c)) EmptyString)%string, [])
  /\ kind_handle_input BS (TextInput (t ++ String (ascii_of_nat (Z.to_nat c)) EmptyString)%string)
     = Ok (TextInput t, []).
Proof.
  intros Hc H8 H10 H27. split.
  - simpl. rewrite (proj2 (Z.eqb_neq c NO_KEY)) by (unfold NO_KEY; lia).
    rewrite (proj2 (Z.eqb_neq c ESC)) by exact H27.
    rewrite (proj2 (Z.eqb_neq c BS)) by exact H8.
    rewrite (proj2 (Z.eqb_neq c 10)) by exact H10.
    rewrite (proj2 (Z.ltb_lt c 256)) by lia. rewrite (proj2 (Z.ltb_ge c 0)) by lia.
    reflexivity.
  - simpl. rewrite drop_last_snoc. reflexivity.
Qed.

Lemma textinput_type_then_backspace_witness :
  (0 <= 97 < 256 /\ 97 <> BS /\ 97 <> 10 /\ 97 <> ESC) /\
  kind_handle_input 97 (TextInput "Ru"%string)
    = Ok (TextInput ("Ru" ++ String (ascii_of_nat (Z.to_nat 97)) EmptyString)%string, [])
  /\ kind_handle_input BS (TextInput ("Ru" ++ String (ascii_of_nat (Z.to_nat 97)) EmptyString)%string)
     = Ok (TextInput "Ru"%string, []).
Proof.
  split; [unfold BS, ESC; lia|].
  apply textinput_type_then_backspace; unfold BS, ESC; lia.
Defined.

(** A text input ignores every key code from 256 up (the arrow and page
    keys among them), and a negative code other than -1 makes it raise
    ValueError ([chr] of a negative number). *)
Theorem textinput_out_of_range_keys (t : string) (c : Z) :
  (256 <= c -> kind_handle_input c (TextInput t) = Ok (TextInput t, []))
  /\ (c < -1 -> kind_handle_input c (TextInput t) = Raise ValueError).
Proof.
  split; intros Hc; simpl;
    rewrite (proj2 (Z.eqb_neq c NO_KEY)) by (unfold NO_KEY; lia);
    rewrite (proj2 (Z.eqb_neq c ESC)) by (unfold ESC; lia);
    rewrite (proj2 (Z.eqb_neq c BS)) by (unfold BS; lia);
    rewrite (proj2 (Z.eqb_neq c 10)) by lia.
  - rewrite (proj2 (Z.ltb_ge c 256)) by lia. reflexivity.
  - rewrite (proj2 (Z.ltb_lt c 256)) by lia. rewrite (proj2 (Z.ltb_lt c 0)) by lia.
    reflexivity.
Qed.

(** Left then right, from any index but the first, gives the combobox
    back; right then left, from any index but the last, does too. *)
Theorem combobox_left_right (cb : combobox) :
  (1 <= index cb < Z.of_nat (length (cb_items cb)) ->
   combobox_handle_input Keys.KEY_RIGHT (combobox_handle_input Keys.KEY_LEFT cb) = cb)
  /\ (0 <= index cb < Z.of_nat (length (cb_items cb)) - 1 ->
   combobox_handle_input Keys.KEY_LEFT (combobox_handle_input Keys.KEY_RIGHT cb) = cb).
Proof.
  destruct cb as [its i]. unfold combobox_handle_input. simpl.
  split; intros H; f_equal; lia.
Qed.

Lemma combobox_left_right_witness :
  combobox_handle_input Keys.KEY_RIGHT (combobox_handle_input Keys.KEY_LEFT
    (mkCombobox ["Ignore"; "Low"; "Medium"]%string 2))
    = mkCombobox ["Ignore"; "Low"; "Medium"]%string 2
  /\ combobox_handle_input Keys.KEY_LEFT (combobox_handle_input Keys.KEY_RIGHT
    (mkCombobox ["Ignore"; "Low"; "Medium"]%string 0))
    = mkCombobox ["Ignore"; "Low"; "Medium"]%string 0.
Proof.
  split; [apply (proj1 (combobox_left_right (mkCombobox ["Ignore"; "Low"; "Medium"]%string 2)))
         |apply (proj2 (combobox_left_right (mkCombobox ["Ignore"; "Low"; "Medium"]%string 0)))];
    simpl; lia.
Defined.

Lemma textinput_out_of_range_keys_witness :
  kind_handle_input Keys.KEY_DOWN (TextInput "Run"%string) = Ok (TextInput "Run"%string, [])
  /\ kind_handle_input (-2) (TextInput "Run"%string) = Raise ValueError.
Proof.
  split; [apply (proj1 (textinput_out_of_range_keys "Run" Keys.KEY_DOWN))
         |apply (proj2 (textinput_out_of_range_keys "Run" (-2)))];
    unfold Keys.KEY_DOWN; lia.
Defined.

End WidgetInputExtras.

(** ** The list of activities to edit *)
Section EditMenuProofs.
Import ActivityFile MenuList EditMenu.

Lemma back_lookup names :
  match index_of "Back" (names ++ ["Back"%string]) with
  | Some b => nth_error (map OpenEdit names ++ [GoBack]) b
  | None => None
  end = Some (if existsb (String.eqb "Back") names then OpenEdit "Back" else GoBack).
Proof.
  induction names as [|n ns IH]; [reflexivity|].
  cbn [index_of app map existsb]. destruct (String.eqb "Back" n) eqn:E.
  - apply String.eqb_eq in E. subst n. reflexivity.
  - rewrite orb_false_l.
    destruct (index_of "Back" (ns ++ ["Back"%string])) as [b|]; cbn [option_map nth_error];
      [exact IH|discriminate].
Qed.

Lemma nth_error_edit_fns names k :
  (k <= length names)%nat ->
  nth_error (map OpenEdit names ++ [GoBack]) k
  = Some (if (k <? length names)%nat then OpenEdit (nth k names EmptyString) else GoBack).
Proof.
  intros Hk. destruct (Nat.ltb_spec k (length names)) as [Hlt|Hge].
  - rewrite nth_error_app1 by (rewrite length_map; exact Hlt).
    rewrite nth_error_map. destruct (nth_error names k) as [x|] eqn:E.
    + simpl. f_equal. f_equal. symmetry. apply nth_error_nth. exact E.
    + apply nth_error_None in E. lia.
  - rewrite nth_error_app2 by (rewrite length_map; lia). rewrite length_map.
    replace (k - length names)%nat with 0%nat by lia. reflexivity.
Qed.

End EditMenuProofs.

Section EditMenuExtras.
Import Keys ActivityFile MenuList EditMenu.

Lemma handle_input_keeps_lists (m : menu action) (height key : Z) :
  items (fst (handle_input action height key m)) = items m
  /\ functions (fst (handle_input action height key m)) = functions m.
Proof.
  unfold handle_input. cbv zeta.
  destruct (if (key =? ESC) then index_of "Back" (items m) else None) as [b|]; [auto|].
  destruct (scroll action height m (offset m) _) as [off2 sel2].
  destruct (_ || _ || _); auto.
Qed.

(** On the list of activities to edit, at any selection and scroll
    offset, Esc hands back the callback of the first item named "Back":
    the edit screen of an activity named "Back" when there is one,
    otherwise [regress_state]; the menu is unchanged. Such a list is what
    [create_list_menu] builds and [update_list_menu] rebuilds, and every
    key handled keeps its items and callbacks. *)
Theorem edit_menu_escape (names : list string) (m : menu action) (height : Z) :
  items m = names ++ ["Back"%string] -> functions m = map OpenEdit names ++ [GoBack] ->
  handle_input action height ESC m
  = (m, Ok (Some (if existsb (String.eqb "Back") names then OpenEdit "Back" else GoBack)))
  /\ (forall key, items (fst (handle_input action height key m)) = items m
                  /\ functions (fst (handle_input action height key m)) = functions m)
  /\ (forall fs m0 m', create_list_menu fs = Ok m' \/ update_list_menu fs m0 = Ok m' ->
      exists names', items m' = names' ++ ["Back"%string]
                     /\ functions m' = map OpenEdit names' ++ [GoBack]).
Proof.
  intros Hi Hf. split; [|split].
  - unfold handle_input. cbv zeta. rewrite Z.eqb_refl, Hi, Hf.
    pose proof (back_lookup names) as B.
    destruct (index_of "Back" (names ++ ["Back"%string])) as [b|]; [|discriminate].
    rewrite B. reflexivity.
  - intros key. apply handle_input_keeps_lists.
  - intros fs m0 m' [H|H]; unfold create_list_menu, update_list_menu in H;
      destruct (read_activities fs "activities.txt") as [acts|e]; simpl in H; try discriminate;
      injection H as <-; exists (map choice acts); split; reflexivity.
Qed.

Lemma edit_menu_escape_witness :
  let m := mkMenu ["Run"; "Back"; "Back"]%string [OpenEdit "Run"; OpenEdit "Back"; GoBack] 2 1 2 in
  handle_input action 24 ESC m = (m, Ok (Some (OpenEdit "Back")))
  /\ handle_input action 24 ESC m
  = (m, Ok (Some (if existsb (String.eqb "Back") ["Run"; "Back"]%string then OpenEdit "Back" else GoBack)))
  /\ (forall key, items (fst (handle_input action 24 key m)) = items m
                  /\ functions (fst (handle_input action 24 key m)) = functions m)
  /\ (forall fs m0 m', create_list_menu fs = Ok m' \/ update_list_menu fs m0 = Ok m' ->
      exists names', items m' = names' ++ ["Back"%string]
                     /\ functions m' = map OpenEdit names' ++ [GoBack]).
Proof.
  intros m. split; [vm_compute; reflexivity|].
  apply (edit_menu_escape ["Run"; "Back"]%string m 24); reflexivity.
Defined.

(** On a list of activity names followed by "Back", with their callbacks,
    Enter (KEY_ENTER, 10 or 13) on item [k] hands back the edit screen of
    the [k]-th name, and on the last item [regress_state]. *)
Theorem edit_menu_enter (names : list string) (m : menu action) (height key : Z) :
  items m = names ++ ["Back"%string] -> functions m = map OpenEdit names ++ [GoBack] ->
  0 <= selected m <= Z.of_nat (length names) ->
  key = KEY_ENTER \/ key = 10 \/ key = 13 ->
  snd (handle_input action height key m)
  = Ok (Some (if selected m <? Z.of_nat (length names)
              then OpenEdit (nth (Z.to_nat (selected m)) names EmptyString) else GoBack)).
Proof.
  intros Hi Hf Hs Hk.
  assert (Hv : vinput key (Z.of_nat (length (items m))) (selected m) = 0)
    by (destruct Hk as [->|[->| ->]]; reflexivity).
  assert (Hesc : (key =? ESC) = false) by (destruct Hk as [->|[->| ->]]; reflexivity).
  assert (Henter : ((key =? KEY_ENTER) || (key =? 10) || (key =? 13)) = true)
    by (destruct Hk as [->|[->| ->]]; reflexivity).
  unfold handle_input. cbv zeta. rewrite Hesc, Hv, Z.add_0_r.
  assert (Hw : wrap (selected m) 0 (Z.of_nat (length (items m)) - 1) = selected m).
  { unfold wrap. rewrite Hi, length_app. simpl length.
    rewrite (proj2 (Z.ltb_ge _ _)) by lia. rewrite (proj2 (Z.ltb_ge _ _)) by lia. reflexivity. }
  rewrite Hw. pose proof (scroll_snd action height m (offset m) (selected m)) as Hsc.
  destruct (scroll action height m (offset m) (selected m)) as [off2 sel2]. simpl in Hsc. subst sel2.
  rewrite Henter. simpl. unfold nth_fn. rewrite (proj2 (Z.ltb_ge _ _)) by lia.
  rewrite Hf, nth_error_edit_fns by lia.
  destruct (Nat.ltb_spec (Z.to_nat (selected m)) (length names));
  destruct (Z.ltb_spec (selected m) (Z.of_nat (length names))); try lia; reflexivity.
Qed.

Lemma edit_menu_enter_witness :
  let m := mkMenu ["Run"; "Swim"; "Back"]%string [OpenEdit "Run"; OpenEdit "Swim"; GoBack] 1 0 2 in
  snd (handle_input action 24 KEY_ENTER m) = Ok (Some (OpenEdit "Swim"))
  /\ snd (handle_input action 24 KEY_ENTER m)
     = Ok (Some (if selected m <? Z.of_nat (length ["Run"; "Swim"]%string)
                 then OpenEdit (nth (Z.to_nat (selected m)) ["Run"; "Swim"]%string EmptyString)
                 else GoBack)).
Proof.
  intros m. split; [vm_compute; reflexivity|].
  apply (edit_menu_enter ["Run"; "Swim"]%string m 24 KEY_ENTER);
    [reflexivity | reflexivity | simpl; lia | left; reflexivity].
Defined.

(** [update_list_menu], run when the list is shown again after an edit
    screen, keeps the selection on an item when at most one activity has
    gone from the file (it moves up one unless it is at the top). *)
Theorem update_list_menu_in_range (fs : file_store) (m m' : menu action) :
  update_list_menu fs m = Ok m' ->
  0 <= selected m < Z.of_nat (length (items m)) ->
  (length (items m) <= length (items m') + 1)%nat ->
  0 <= selected m' < Z.of_nat (length (items m'))
  /\ selected m' = (if 0 <? selected m then selected m - 1 else selected m)
  /\ offset m' = offset m.
Proof.
  unfold update_list_menu. destruct (read_activities fs "activities.txt") as [acts|e];
    simpl; [|discriminate].
  intros H. injection H as <-. simpl. rewrite length_app. simpl length. intros Hs Hlen.
  split; [|auto]. destruct (Z.ltb_spec 0 (selected m)); lia.
Qed.

Lemma update_list_menu_in_range_witness :
  let fs := write_file (fun _ => None) "activities.txt" "Run,1
"%string in
  let m := mkMenu ["Run"; "Swim"; "Back"]%string [OpenEdit "Run"; OpenEdit "Swim"; GoBack] 1 0 2 in
  exists m', update_list_menu fs m = Ok m'
  /\ 0 <= selected m' < Z.of_nat (length (items m'))
  /\ selected m' = (if 0 <? selected m then selected m - 1 else selected m)
  /\ offset m' = offset m.
Proof.
  intros fs m. eexists. split; [vm_compute; reflexivity|].
  apply (update_list_menu_in_range fs m); [vm_compute; reflexivity | simpl; lia | simpl; lia].
Defined.

End EditMenuExtras.

(** ** How much [adjust_priorities] can change a priority *)
Section AdjustProofs.
Import ActivityFile Scheduler.

Lemma in_insert_desc x y l : In y (insert_desc x l) <-> x = y \/ In y l.
Proof.
  induction l as [|z r IH]; simpl; [tauto|].
  destruct (String.leb (fst z) (fst x)); simpl; [tauto|]. rewrite IH. tauto.
Qed.

Lemma in_sort_desc y l : In y (sort_desc l) <-> In y l.
Proof. induction l as [|x r IH]; simpl; [tauto|]. rewrite in_insert_desc, IH. tauto. Qed.

Lemma length_insert_desc x l : length (insert_desc x l) = S (length l).
Proof.
  induction l as [|z r IH]; simpl; [reflexivity|].
  destruct (String.leb (fst z) (fst x)); simpl; [reflexivity|]. rewrite IH. reflexivity.
Qed.

Lemma length_sort_desc l : length (sort_desc l) = length l.
Proof. induction l as [|x r IH]; simpl; [reflexivity|]. rewrite length_insert_desc, IH. reflexivity. Qed.

Lemma mem_in x xs : mem x xs = true <-> In x xs.
Proof.
  unfold mem. rewrite existsb_exists. split.
  - intros [y [Hy E]]. apply String.eqb_eq in E. subst. exact Hy.
  - intros H. exists x. split; [exact H | apply String.eqb_refl].
Qed.

Lemma remove_first_in x a all : In x all -> a <> x -> In x (remove_first a all).
Proof.
  induction all as [|y r IH]; simpl; [tauto|]. intros Hin Ha.
  destruct (String.eqb a y) eqn:E.
  - apply String.eqb_eq in E. subst y. destruct Hin as [->|Hin]; [congruence | exact Hin].
  - destruct Hin as [->|Hin]; [left; reflexivity | right; auto].
Qed.

Lemma bumped_priority found a :
  priority (bumped found a) = priority a + (if mem (choice a) found then 0 else 1)
  /\ choice (bumped found a) = choice a.
Proof. split; reflexivity. Qed.

Lemma in_range_bump h locs found :
  (forall l, In l locs -> (l < length h)%nat) ->
  forall l, In l locs -> (l < length (bump h locs found))%nat.
Proof. intros H l Hl. rewrite length_bump. auto. Qed.

Lemma adjust_loop_bounds locs plans : forall h all found,
  NoDup locs -> (forall l, In l locs -> (l < length h)%nat) ->
  forall l, In l locs ->
  choice (get (fst (adjust_loop plans h locs all found)) l) = choice (get h l)
  /\ priority (get h l) <= priority (get (fst (adjust_loop plans h locs all found)) l)
     <= priority (get h l) + Z.of_nat (length plans).
Proof.
  induction plans as [|p ps IH]; intros h all found Hnd Hlen l Hl; simpl;
    [split; [reflexivity | lia]|].
  unfold adjust_round. destruct (scan_lines (lines p) all found) as [[all' found']|e];
    simpl; [|split; [reflexivity | lia]].
  pose proof (get_bump_inside h locs found' l Hnd Hlen Hl) as Hb.
  destruct (bumped_priority found' (get h l)) as [Hp Hc].
  assert (Hpb : priority (get h l) <= priority (get (bump h locs found') l) <= priority (get h l) + 1)
    by (rewrite Hb, Hp; destruct (mem _ _); lia).
  assert (Hcb : choice (get (bump h locs found') l) = choice (get h l)) by (rewrite Hb; exact Hc).
  destruct all' as [|y ys]; simpl; [split; [exact Hcb | lia]|].
  destruct (IH (bump h locs found') (y :: ys) found' Hnd (in_range_bump h locs found' Hlen) l Hl)
    as [Hc' Hp'].
  split; [congruence | lia].
Qed.

Lemma scan_lines_keeps x ls : forall all found all' found',
  scan_lines ls all found = Ok (all', found') ->
  (forall line, In line ls -> plan_entry line <> Ok x) ->
  In x all -> ~ In x found -> In x all' /\ ~ In x found'.
Proof.
  induction ls as [|line r IH]; intros all found all' found' H Hno Hall Hfound; simpl in H.
  - injection H as <- <-. auto.
  - destruct (plan_entry line) as [a|e] eqn:E; simpl in H; [|discriminate].
    assert (Ha : a <> x) by (intros ->; exact (Hno line (or_introl eq_refl) E)).
    assert (Hno' : forall l, In l r -> plan_entry l <> Ok x) by (intros l Hl; apply Hno; right; exact Hl).
    destruct (mem a all).
    + apply (IH _ _ _ _ H Hno'); [apply remove_first_in; assumption|].
      rewrite in_app_iff. simpl. intros [Hf|[Hf|[]]]; [exact (Hfound Hf) | exact (Ha Hf)].
    + exact (IH _ _ _ _ H Hno' Hall Hfound).
Qed.

Lemma adjust_loop_unmentioned locs l x plans : forall h all found,
  NoDup locs -> (forall l', In l' locs -> (l' < length h)%nat) -> In l locs ->
  choice (get h l) = x -> In x all -> ~ In x found ->
  (forall p, In p plans -> forall line, In line (lines p) -> plan_entry line <> Ok x) ->
  snd (adjust_loop plans h locs all found) = Ok tt ->
  choice (get (fst (adjust_loop plans h locs all found)) l) = x
  /\ priority (get (fst (adjust_loop plans h locs all found)) l)
     = priority (get h l) + Z.of_nat (length plans).
Proof.
  induction plans as [|p ps IH]; intros h all found Hnd Hlen Hl Hx Hall Hfound Hno Hok;
    simpl in *; [split; [exact Hx | lia]|].
  unfold adjust_round in *.
  destruct (scan_lines (lines p) all found) as [[all' found']|e] eqn:E; simpl in *;
    [|discriminate].
  destruct (scan_lines_keeps x (lines p) all found all' found' E (Hno p (or_introl eq_refl))
              Hall Hfound) as [Hall' Hfound'].
  destruct all' as [|y ys]; [destruct Hall'|].
  pose proof (get_bump_inside h locs found' l Hnd Hlen Hl) as Hb.
  assert (Hmem : mem x found' = false)
    by (destruct (mem x found') eqn:M; [apply mem_in in M; contradiction | reflexivity]).
  assert (Hcb : choice (get (bump h locs found') l) = x) by (rewrite Hb; exact Hx).
  assert (Hpb : priority (get (bump h locs found') l) = priority (get h l) + 1)
    by (rewrite Hb; unfold bumped; simpl; rewrite Hx, Hmem; reflexivity).
  destruct (IH (bump h locs found') (y :: ys) found' Hnd (in_range_bump h locs found' Hlen) Hl
              Hcb Hall' Hfound' (fun p' Hp' => Hno p' (or_intror Hp')) Hok) as [Hc Hp].
  split; [exact Hc | lia].
Qed.

Lemma adjust_priorities_cons q qs h locs :
  adjust_priorities (Some (q :: qs)) h locs
  = let '(h', r) := adjust_loop (map snd (sort_desc (q :: qs))) h locs
                      (map (fun l => choice (get h l)) locs) [] in
    (h', bind r (fun _ => Ok locs)).
Proof. reflexivity. Qed.

Lemma adjust_priorities_unmentioned_get (plans : list (string * string)) (h : heap)
  (locs : list loc) (l : loc) :
  NoDup locs -> (forall l', In l' locs -> (l' < length h)%nat) -> In l locs ->
  (forall p, In p plans -> forall line, In line (lines (snd p)) ->
     plan_entry line <> Ok (choice (get h l))) ->
  snd (adjust_priorities (Some plans) h locs) = Ok locs ->
  get (fst (adjust_priorities (Some plans) h locs)) l
  = mkActivity (choice (get h l)) (priority (get h l) + Z.of_nat (length plans)).
Proof.
  intros Hnd Hlen Hl Hno Hok. destruct plans as [|q qs].
  - simpl in *. destruct (get h l). simpl. f_equal. lia.
  - rewrite (adjust_priorities_cons q qs) in *.
    assert (Hno' : forall p, In p (map snd (sort_desc (q :: qs))) -> forall line, In line (lines p) ->
                   plan_entry line <> Ok (choice (get h l))).
    { intros p Hp. apply in_map_iff in Hp as [[n c] [<- Hin]]. rewrite in_sort_desc in Hin.
      exact (Hno _ Hin). }
    assert (Hall : In (choice (get h l)) (map (fun l0 => choice (get h l0)) locs))
      by (apply in_map_iff; exists l; auto).
    pose proof (adjust_loop_unmentioned locs l (choice (get h l)) (map snd (sort_desc (q :: qs))) h
                  (map (fun l0 => choice (get h l0)) locs) [] Hnd Hlen Hl eq_refl Hall
                  (fun H => H) Hno') as U.
    destruct (adjust_loop (map snd (sort_desc (q :: qs))) h locs (map (fun l0 => choice (get h l0)) locs) [])
      as [h' r].
    destruct r as [[]|e]; simpl in Hok; [|discriminate].
    cbn [fst snd] in U. destruct (U eq_refl) as [Hc Hp].
    rewrite length_map, length_sort_desc in Hp. cbn [fst].
    rewrite <- Hc, <- Hp. destruct (get h' l). reflexivity.
Qed.

End AdjustProofs.

Section AdjustExtras.
Import ActivityFile Scheduler.

(** [adjust_priorities] keeps every name and raises each priority by at
    least 0 and at most one per plan file, also when a plan line raises
    part-way. *)
Theorem adjust_priorities_bounds (plans : list (string * string)) (h : heap) (locs : list loc) :
  NoDup locs -> (forall l, In l locs -> (l < length h)%nat) ->
  forall l, In l locs ->
  choice (get (fst (adjust_priorities (Some plans) h locs)) l) = choice (get h l)
  /\ priority (get h l) <= priority (get (fst (adjust_priorities (Some plans) h locs)) l)
     <= priority (get h l) + Z.of_nat (length plans).
Proof.
  intros Hnd Hlen l Hl. unfold adjust_priorities.
  destruct plans as [|q qs]; simpl; [split; [reflexivity | lia]|].
  set (ps := q :: qs).
  pose proof (adjust_loop_bounds locs (map snd (sort_desc ps)) h
                (map (fun l0 => choice (get h l0)) locs) [] Hnd Hlen l Hl) as B.
  rewrite length_map, length_sort_desc in B.
  destruct (adjust_loop _ _ _ _ _) as [h' r]. exact B.
Qed.

Lemma adjust_priorities_bounds_witness :
  NoDup [0; 1]%nat /\ (forall l, In l [0; 1]%nat -> (l < length [mkActivity "Run" 1; mkActivity "Swim" 2])%nat)
  /\ forall l, In l [0; 1]%nat ->
  choice (get (fst (adjust_priorities (Some [("week_plan_2024-01-01.txt", "Monday: Run
")%string]) [mkActivity "Run" 1; mkActivity "Swim" 2] [0; 1]%nat)) l)
    = choice (get [mkActivity "Run" 1; mkActivity "Swim" 2] l)
  /\ priority (get [mkActivity "Run" 1; mkActivity "Swim" 2] l)
     <= priority (get (fst (adjust_priorities (Some [("week_plan_2024-01-01.txt", "Monday: Run
")%string]) [mkActivity "Run" 1; mkActivity "Swim" 2] [0; 1]%nat)) l)
     <= priority (get [mkActivity "Run" 1; mkActivity "Swim" 2] l)
        + Z.of_nat (length [("week_plan_2024-01-01.txt", "Monday: Run
")%string]).
Proof.
  assert (Hnd : NoDup [0; 1]%nat) by (constructor; [simpl; lia | constructor; [simpl; tauto | constructor]]).
  assert (Hlen : forall l, In l [0; 1]%nat -> (l < length [mkActivity "Run" 1; mkActivity "Swim" 2])%nat)
    by (simpl; intros l [<-|[<-|[]]]; lia).
  split; [exact Hnd|]. split; [exact Hlen|].
  apply adjust_priorities_bounds; assumption.
Defined.

(** An activity whose name no line of any plan file names gets exactly
    one more point per plan file: the loop over the plans never stops
    early while its name is unseen. *)
Theorem adjust_priorities_unmentioned (plans : list (string * string)) (h : heap)
  (locs : list loc) (l : loc) :
  NoDup locs -> (forall l', In l' locs -> (l' < length h)%nat) -> In l locs ->
  (forall p, In p plans -> forall line, In line (lines (snd p)) ->
     plan_entry line <> Ok (choice (get h l))) ->
  snd (adjust_priorities (Some plans) h locs) = Ok locs ->
  get (fst (adjust_priorities (Some plans) h locs)) l
  = mkActivity (choice (get h l)) (priority (get h l) + Z.of_nat (length plans)).
Proof. exact (adjust_priorities_unmentioned_get plans h locs l). Qed.

Lemma adjust_priorities_unmentioned_witness :
  get (fst (adjust_priorities (Some [("week_plan_2024-01-01.txt", "Monday: Run
")%string; ("week_plan_2024-01-08.txt", "Monday: Run
Tuesday: Read
")%string]) [mkActivity "Run" 1; mkActivity "Swim" 2] [0; 1]%nat)) 1%nat
  = mkActivity "Swim" (2 + 2).
Proof.
  refine (eq_trans (adjust_priorities_unmentioned [("week_plan_2024-01-01.txt", "Monday: Run
")%string; ("week_plan_2024-01-08.txt", "Monday: Run
Tuesday: Read
")%string] [mkActivity "Run" 1; mkActivity "Swim" 2] [0; 1]%nat 1%nat _ _ _ _ _) eq_refl).
  - constructor; [simpl; lia | constructor; [simpl; tauto | constructor]].
  - simpl. intros l [<-|[<-|[]]]; lia.
  - simpl. auto.
  - simpl. intros p [<-|[<-|[]]] line Hline; vm_compute in Hline;
      repeat destruct Hline as [<-|Hline]; try destruct Hline; vm_compute; discriminate.
  - vm_compute. reflexivity.
Defined.

End AdjustExtras.

(** ** The draw of [get_random_activity] and the heap it leaves *)
Section DrawProofs.
Import ActivityFile Scheduler.

Lemma in_pool h locs x :
  In x (pool h locs) <-> exists l, In l locs /\ choice (get h l) = x /\ 0 < priority (get h l).
Proof.
  unfold pool. rewrite in_flat_map. split.
  - intros [l [Hl Hx]].
    destruct (Z.to_nat (priority (get h l))) eqn:E; [destruct Hx|].
    exists l. split; [exact Hl|]. split; [symmetry; exact (repeat_spec _ _ _ Hx)|]. lia.
  - intros [l [Hl [Hx Hp]]]. exists l. split; [exact Hl|].
    apply in_repeat_pos; [lia | symmetry; exact Hx].
Qed.

Lemma py_choice_drawable xs x : In x xs -> exists rb, py_choice rb xs = Ok x.
Proof.
  intros H. destruct (In_nth_error _ _ H) as [i E]. exists (fun _ => i).
  destruct xs as [|y r]; [destruct H|]. unfold py_choice. cbv beta. rewrite E. reflexivity.
Qed.

Lemma get_app_acts (h acts : heap) l :
  In l (seq (length h) (length acts)) -> In (get (h ++ acts) l) acts.
Proof.
  intros Hl. apply in_seq in Hl. unfold get. rewrite app_nth2 by lia. apply nth_In. lia.
Qed.

Lemma draw_positive rb fs dir h acts x :
  read_activities fs "activities.txt" = Ok acts ->
  snd (get_random_activity rb fs dir h) = Ok x ->
  exists l, In l (seq (length h) (length acts))
    /\ choice (get (fst (adjust_priorities dir (h ++ acts) (seq (length h) (length acts)))) l) = x
    /\ 0 < priority (get (fst (adjust_priorities dir (h ++ acts) (seq (length h) (length acts)))) l).
Proof.
  intros Hr. unfold get_random_activity. rewrite Hr. unfold alloc.
  destruct (adjust_priorities_result dir (h ++ acts) (seq (length h) (length acts))) as [[e He]|Hok];
  destruct (adjust_priorities dir (h ++ acts) (seq (length h) (length acts))) as [h2 r] eqn:E;
  simpl in He || simpl in Hok; subst r; simpl; [discriminate|].
  intros Hx. apply py_choice_in in Hx. apply in_pool in Hx. exact Hx.
Qed.

Lemma positive_drawable fs dir h acts l :
  read_activities fs "activities.txt" = Ok acts ->
  snd (adjust_priorities dir (h ++ acts) (seq (length h) (length acts)))
    = Ok (seq (length h) (length acts)) ->
  In l (seq (length h) (length acts)) ->
  0 < priority (get (fst (adjust_priorities dir (h ++ acts) (seq (length h) (length acts)))) l) ->
  exists rb, get_random_activity rb fs dir h
    = (fst (adjust_priorities dir (h ++ acts) (seq (length h) (length acts))),
       Ok (choice (get (fst (adjust_priorities dir (h ++ acts) (seq (length h) (length acts)))) l))).
Proof.
  intros Hr. unfold get_random_activity. rewrite Hr. unfold alloc.
  destruct (adjust_priorities dir (h ++ acts) (seq (length h) (length acts))) as [h2 r] eqn:E.
  simpl. intros Hok Hl Hp. subst r.
  assert (Hin : In (choice (get h2 l)) (pool h2 (seq (length h) (length acts))))
    by (apply in_pool; eauto).
  destruct (py_choice_drawable _ _ Hin) as [rb Hrb]. exists rb. rewrite Hrb. reflexivity.
Qed.

End DrawProofs.

Section DrawClaims.
Import ActivityFile Scheduler.

(** C3 (amended): what [get_random_activity] can draw, for the list read
    from the activity file. It draws only a name that some record of that
    list carries with a positive priority after the history adjustment,
    and, when the adjustment completes, each such name can be drawn. With
    an empty plans directory no priority is adjusted, so a name stored
    only with priority 0 (or less) is never drawn. With past plans that
    never name it, a record stored with priority 0 is raised by the bump
    and can be drawn. *)
Theorem pool_only_positive_adjusted (fs : file_store) (dir : option (list (string * string)))
  (h : heap) (acts : list Activity) :
  read_activities fs "activities.txt" = Ok acts ->
  (forall rb x, snd (get_random_activity rb fs dir h) = Ok x ->
     exists l, In l (seq (length h) (length acts))
       /\ choice (get (fst (adjust_priorities dir (h ++ acts) (seq (length h) (length acts)))) l) = x
       /\ 0 < priority (get (fst (adjust_priorities dir (h ++ acts) (seq (length h) (length acts)))) l))
  /\ (snd (adjust_priorities dir (h ++ acts) (seq (length h) (length acts)))
        = Ok (seq (length h) (length acts)) ->
      forall l, In l (seq (length h) (length acts)) ->
      0 < priority (get (fst (adjust_priorities dir (h ++ acts) (seq (length h) (length acts)))) l) ->
      exists rb, get_random_activity rb fs dir h
        = (fst (adjust_priorities dir (h ++ acts) (seq (length h) (length acts))),
           Ok (choice (get (fst (adjust_priorities dir (h ++ acts) (seq (length h) (length acts)))) l))))
  /\ (dir = Some [] -> forall rb x,
      (forall a, In a acts -> choice a = x -> priority a <= 0) ->
      snd (get_random_activity rb fs dir h) <> Ok x)
  /\ (forall plans l, dir = Some plans -> plans <> [] ->
      snd (adjust_priorities dir (h ++ acts) (seq (length h) (length acts)))
        = Ok (seq (length h) (length acts)) ->
      In l (seq (length h) (length acts)) -> priority (get (h ++ acts) l) = 0 ->
      (forall p, In p plans -> forall line, In line (lines (snd p)) ->
         plan_entry line <> Ok (choice (get (h ++ acts) l))) ->
      exists rb, get_random_activity rb fs dir h
        = (fst (adjust_priorities dir (h ++ acts) (seq (length h) (length acts))),
           Ok (choice (get (h ++ acts) l)))).
Proof.
  intros Hr. split; [|split; [|split]].
  - intros rb x. apply draw_positive, Hr.
  - intros Hok l. exact (positive_drawable fs dir h acts l Hr Hok).
  - intros -> rb x Hno Hx.
    destruct (draw_positive rb fs (Some []) h acts x Hr Hx) as [l [Hl [Hc Hp]]].
    simpl in Hc, Hp. pose proof (Hno _ (get_app_acts h acts l Hl) Hc). lia.
  - intros plans l -> Hne Hok Hl H0 Hno.
    assert (Hnd : NoDup (seq (length h) (length acts))) by apply seq_NoDup.
    assert (Hlen : forall l', In l' (seq (length h) (length acts)) -> (l' < length (h ++ acts))%nat)
      by (intros l' Hl'; apply in_seq in Hl'; rewrite length_app; lia).
    pose proof (adjust_priorities_unmentioned_get plans (h ++ acts) _ l Hnd Hlen Hl Hno Hok) as G.
    assert (Hp : 0 < priority (get (fst (adjust_priorities (Some plans) (h ++ acts)
                                  (seq (length h) (length acts)))) l)).
    { rewrite G. simpl. rewrite H0. destruct plans; [congruence|]. simpl length. lia. }
    destruct (positive_drawable fs (Some plans) h acts l Hr Hok Hl Hp) as [rb Hrb].
    exists rb. rewrite Hrb, G. reflexivity.
Qed.

Lemma pool_only_positive_adjusted_witness :
  let fs := fun f => if String.eqb f "activities.txt"
                     then Some ("X,0" ++ String nl ("Y,1" ++ String nl EmptyString))%string
                     else None in
  let dir := Some [("week_plan_2024-01-01.txt", "Monday: Y" ++ String nl EmptyString)%string] in
  let acts := [mkActivity "X" 0; mkActivity "Y" 1] in
  read_activities fs "activities.txt" = Ok acts
  /\ (forall rb x, snd (get_random_activity rb fs dir []) = Ok x ->
     exists l, In l (seq (length ([] : heap)) (length acts))
       /\ choice (get (fst (adjust_priorities dir ([] ++ acts) (seq (length ([] : heap)) (length acts)))) l) = x
       /\ 0 < priority (get (fst (adjust_priorities dir ([] ++ acts) (seq (length ([] : heap)) (length acts)))) l))
  /\ (snd (adjust_priorities dir ([] ++ acts) (seq (length ([] : heap)) (length acts)))
        = Ok (seq (length ([] : heap)) (length acts)) ->
      forall l, In l (seq (length ([] : heap)) (length acts)) ->
      0 < priority (get (fst (adjust_priorities dir ([] ++ acts) (seq (length ([] : heap)) (length acts)))) l) ->
      exists rb, get_random_activity rb fs dir []
        = (fst (adjust_priorities dir ([] ++ acts) (seq (length ([] : heap)) (length acts))),
           Ok (choice (get (fst (adjust_priorities dir ([] ++ acts) (seq (length ([] : heap)) (length acts)))) l))))
  /\ (dir = Some [] -> forall rb x,
      (forall a, In a acts -> choice a = x -> priority a <= 0) ->
      snd (get_random_activity rb fs dir []) <> Ok x)
  /\ (forall plans l, dir = Some plans -> plans <> [] ->
      snd (adjust_priorities dir ([] ++ acts) (seq (length ([] : heap)) (length acts)))
        = Ok (seq (length ([] : heap)) (length acts)) ->
      In l (seq (length ([] : heap)) (length acts)) -> priority (get ([] ++ acts) l) = 0 ->
      (forall p, In p plans -> forall line, In line (lines (snd p)) ->
         plan_entry line <> Ok (choice (get ([] ++ acts) l))) ->
      exists rb, get_random_activity rb fs dir []
        = (fst (adjust_priorities dir ([] ++ acts) (seq (length ([] : heap)) (length acts))),
           Ok (choice (get ([] ++ acts) l)))).
Proof.
  intros fs dir acts.
  assert (Hr : read_activities fs "activities.txt" = Ok acts) by (vm_compute; reflexivity).
  split; [exact Hr | exact (pool_only_positive_adjusted fs dir [] acts Hr)].
Defined.

(** C4 (amended): [get_random_activity] builds its list by reading the
    activity file into fresh records, so no record that existed before
    the call changes. [adjust_priorities] does not clone: it updates in
    place the records of the list it is given and no other record, it
    changes only their priority fields (every name, and the number of
    records, stay the same), and it returns that same list (or raises). *)
Theorem draw_leaves_existing_records :
  (forall (randbelow : nat -> nat) (fs : file_store)
          (dir : option (list (string * string))) (h : heap) (l : loc),
     (l < length h)%nat -> get (fst (get_random_activity randbelow fs dir h)) l = get h l)
  /\ (forall (dir : option (list (string * string))) (h : heap) (locs : list loc) (l : loc),
     ~ In l locs -> get (fst (adjust_priorities dir h locs)) l = get h l)
  /\ (forall (dir : option (list (string * string))) (h : heap) (locs : list loc),
     map choice (fst (adjust_priorities dir h locs)) = map choice h)
  /\ (forall (dir : option (list (string * string))) (h : heap) (locs : list loc),
     snd (adjust_priorities dir h locs) = Ok locs
     \/ exists e, snd (adjust_priorities dir h locs) = Raise e).
Proof.
  split; [|split; [exact adjust_priorities_outside|split]].
  - intros randbelow fs dir h l Hl. unfold get_random_activity.
    destruct (read_activities fs "activities.txt") as [acts|e]; [|reflexivity].
    unfold alloc.
    destruct (adjust_priorities dir (h ++ acts) (seq (length h) (length acts)))
      as [h2 r] eqn:E.
    assert (Hget : get h2 l = get h l).
    { replace h2 with (fst (adjust_priorities dir (h ++ acts) (seq (length h) (length acts))))
        by (rewrite E; reflexivity).
      rewrite adjust_priorities_outside.
      - apply get_app_l, Hl.
      - rewrite in_seq. lia. }
    destruct r; exact Hget.
  - intros dir h locs. exact (proj1 (adjust_priorities_names dir h locs)).
  - intros dir h locs. destruct (adjust_priorities_result dir h locs); tauto.
Qed.

Lemma draw_leaves_existing_records_witness :
  let fs := fun f => if String.eqb f "activities.txt"
                     then Some ("X,1" ++ String nl EmptyString)%string else None in
  get (fst (get_random_activity (fun _ => 0%nat) fs (Some []) [mkActivity "Z" 5])) 0%nat
  = get [mkActivity "Z" 5] 0%nat.
Proof.
  intros fs. apply (proj1 draw_leaves_existing_records). simpl. lia.
Defined.

End DrawClaims.
